(** * docker-fpm: the request controller and its container pool

    A shallow embedding of [pkg/fpm/controller.go] (the request controller)
    and of the thin Docker client it drives ([package docker]), followed by
    the properties of the pool that the controller maintains.

    The Docker daemon, the pseudo-random source of [math/rand], the plain
    HTTP client and the order in which Go ranges over a map are outside the
    program: they are an interface ([Runtime]) over an abstract [World], and
    every theorem holds for all its implementations.  The controller's
    methods mutate the receiver [*ReqController]; they are written in a small
    state monad over the controller's fields, the world and a log of the
    calls made on the Docker client.  A Go run-time panic (index out of
    range) is an outcome of its own. *)

From Stdlib Require Import ZArith DecimalString.
From Stdlib Require DecimalPos DecimalZ.
From stdpp Require Import base tactics option list strings gmap.

Open Scope Z_scope.

(** ** Go values *)

(** An [error] is [nil] ([None]) or carries its message. *)
Definition error := option string.

(** A Go result pair [(v, err)] in which exactly one side is meaningful. *)
Inductive result (A : Type) : Type :=
| Ok (a : A)
| Err (msg : string).
Arguments Ok {A} a.
Arguments Err {A} msg.

(** [errors.Wrap(err, msg)]: the message is prefixed to the cause. *)
Definition Wrap (err msg : string) : string := msg +:+ ": " +:+ err.

(** The verb [%d] of [fmt] on an [int]. *)
Definition fmt_d (n : Z) : string := NilZero.string_of_int (Z.to_int n).

(** Go's [int] is 64 bits wide on the platforms Docker runs on; arithmetic
    wraps around. *)
Definition min_int : Z := - 2 ^ 63.
Definition max_int : Z := 2 ^ 63 - 1.
Definition wrap_int (n : Z) : Z := (n + 2 ^ 63) mod 2 ^ 64 - 2 ^ 63.

(** ** Data of the controller (controller.go, lines 14-44) *)

Definition DynamicController : string := "dynamic".
Definition StaticController : string := "static".
Definition controllerTypes : list string := [DynamicController; StaticController].

Record ControllerConfig := {
  Deployment : string;
  ContainerImage : string;
  ContainerImageTag : string;
  ContainerPort : Z;
  ContainerAmount : Z;
  Type_ : string;
  DynIdleSeconds : Z
}.

Record Container := {
  Name : string;
  Id : string;
  Started : bool;
  Dirty : bool;
  IPAddr : string
}.

(** Assignments to the fields of a local copy [c]. *)
Definition set_Started (b : bool) (c : Container) : Container :=
  {| Name := Name c; Id := Id c; Started := b; Dirty := Dirty c; IPAddr := IPAddr c |}.
Definition set_Dirty (b : bool) (c : Container) : Container :=
  {| Name := Name c; Id := Id c; Started := Started c; Dirty := b; IPAddr := IPAddr c |}.
Definition set_IPAddr (ip : string) (c : Container) : Container :=
  {| Name := Name c; Id := Id c; Started := Started c; Dirty := Dirty c; IPAddr := ip |}.

(** [http.Header] is a [map[string][]string]. *)
Abbreviation Header := (gmap string (list string)).

Record URL := {
  Scheme : string;
  Host : string;
  Path : string;
  RawQuery : string
}.

Record Request := {
  req_Method : string;
  req_URL : URL;
  req_Header : Header;
  req_Body : string
}.

Record Response := {
  StatusCode : Z;
  res_Header : Header;
  res_Body : string
}.

(** What a handler has done to its [http.ResponseWriter]: the header map
    behind [w.Header()], the status passed to the first [w.WriteHeader] with
    the header map as it was then (what is sent), and the bytes written. *)
Record ResponseWriter := {
  w_Header : Header;
  w_Wrote : option (Z * Header);
  w_Body : string
}.

Definition w_Status (w : ResponseWriter) : option Z := fst <$> w_Wrote w.

Definition StatusInternalServerError : Z := 500.
Definition StatusBadGateway : Z := 502.

(** ** Calls on the Docker client

    Each call the controller makes on [docker.Client] is logged with the
    answer it got, so that statements on which calls are made (and in which
    order) can be written down. *)
Inductive Call :=
| CreateCall (name image deployment : string) (r : result string)
| StartCall (id : string) (r : error)
| DetailsCall (id : string) (r : result string)
| StopCall (id : string) (r : error)
| KillCall (id : string) (r : error)
| RemoveCall (id : string) (r : error).

(** ** The outside world *)

Class Runtime (World : Type) := {
  (** the Docker SDK behind [docker.Client]: each answers and moves the world *)
  cli_NewClient : World → error;
  cli_ContainerCreate : string → string → string → World → result string * World;
  cli_ContainerStart : string → World → error * World;
  (** of the inspected JSON only [NetworkSettings.IPAddress] is read; the
      answer is taken to carry its network settings, as the daemon's does
      for a container that exists (the SDK holds them behind a pointer, and
      an answer without them is not part of this interface) *)
  cli_ContainerInspect : string → World → result string * World;
  cli_ContainerStop : string → World → error * World;
  cli_ContainerKill : string → World → error * World;
  cli_ContainerRemove : string → World → error * World;
  (** [rand.Intn] of the shared source *)
  rand_Intn : Z → World → Z * World;
  (** [http.NewRequest(method, url.String(), body)] *)
  http_NewRequest : string → URL → string → result Request;
  (** [(&http.Client{}).Do] *)
  http_Do : Request → World → result Response * World;
  (** [textproto.CanonicalMIMEHeaderKey], applied by [Header.Add] *)
  CanonicalMIMEHeaderKey : string → string;
  (** the order in which this [range] visits the entries of a header map *)
  range_Header : Header → World → list (string * list string)
}.

(** [rand.Intn(n)] answers in [[0, n)]. *)
Definition IntnInRange `{Runtime World} : Prop :=
  ∀ n (w : World), 0 < n → 0 ≤ (rand_Intn n w).1 < n.

(** A [range] over a map visits every entry once, in an order of its own. *)
Definition RangeVisitsAll `{Runtime World} : Prop :=
  ∀ (h : Header) (w : World), range_Header h w ≡ₚ map_to_list h.

Section Controller.
Context {World : Type} `{RT : Runtime World}.

(** The receiver [s *ReqController] with the world it acts on.  [DockerCli]
    is [world] with [calls]; [LastReq] is written once and never read; [Lock]
    guards concurrent handlers and has no effect on a single one. *)
Record State := {
  Config : ControllerConfig;
  Containers : list Container;
  ContainerNo : Z;
  world : World;
  calls : list Call
}.

Definition with_Containers (cs : list Container) (st : State) : State :=
  {| Config := Config st; Containers := cs; ContainerNo := ContainerNo st;
     world := world st; calls := calls st |}.

Definition with_ContainerNo (n : Z) (st : State) : State :=
  {| Config := Config st; Containers := Containers st; ContainerNo := n;
     world := world st; calls := calls st |}.

(** The world after a call on the client, and the call logged. *)
Definition called (c : Call) (w : World) (st : State) : State :=
  {| Config := Config st; Containers := Containers st;
     ContainerNo := ContainerNo st; world := w; calls := calls st ++ [c] |}.

Definition with_world (w : World) (st : State) : State :=
  {| Config := Config st; Containers := Containers st;
     ContainerNo := ContainerNo st; world := w; calls := calls st |}.

(** ** The monad of the methods *)

Inductive Res (A : Type) : Type :=
| Val (a : A) (st : State)
| Panic (msg : string) (st : State).
Arguments Val {A} a st.
Arguments Panic {A} msg st.

Definition M (A : Type) : Type := State → Res A.

Definition final {A} (r : Res A) : State :=
  match r with Val _ st => st | Panic _ st => st end.

Definition panics {A} (r : Res A) : bool :=
  match r with Val _ _ => false | Panic _ _ => true end.

#[global] Instance M_ret : MRet M := λ A a st, Val a st.
#[global] Instance M_bind : MBind M := λ A B k m st,
  match m st with
  | Val a st' => k a st'
  | Panic msg st' => Panic msg st'
  end.

Definition gets {A} (f : State → A) : M A := λ st, Val (f st) st.
Definition modify (f : State → State) : M unit := λ st, Val tt (f st).

(** [s.Containers[i]] read and written; out of range both panic. *)
Definition index (i : Z) : M Container := λ st,
  if bool_decide (0 ≤ i) then
    match Containers st !! Z.to_nat i with
    | Some c => Val c st
    | None => Panic "index out of range" st
    end
  else Panic "index out of range" st.

Definition store (i : nat) (c : Container) : M unit := λ st,
  if bool_decide (i < length (Containers st))%nat
  then Val tt (with_Containers (<[i := c]> (Containers st)) st)
  else Panic "index out of range" st.

(** [for i, c := range s.Containers { body }] where [body] ends an iteration
    with [None] ([continue], or falling off its end) or leaves the function
    with [Some err] ([return err]).  The length is taken once, entry [i] is
    read when iteration [i] begins. *)
Fixpoint range_from (n i : nat) (body : nat → Container → M error) : M error :=
  match n with
  | O => mret None
  | S n' =>
      c ← index (Z.of_nat i);
      e ← body i c;
      match e with
      | Some err => mret (Some err)
      | None => range_from n' (S i) body
      end
  end.

Definition range_Containers (body : nat → Container → M error) : M error :=
  n ← gets (λ st, length (Containers st));
  range_from n 0 body.

(** ** The Docker client (package docker) *)

(** One call on the SDK: the world moves, the call is logged with its
    answer, and a failure is wrapped in the wrapper's own message.  (The
    progress lines that the wrappers print are left out.) *)
Definition CreateContainer (name image deployment : string) : M (result string) :=
  λ st,
    let '(r, w) := cli_ContainerCreate image deployment name (world st) in
    let r := match r with
             | Ok id => Ok id
             | Err e => Err (Wrap e "Unable to create a new container")
             end in
    Val r (called (CreateCall name image deployment r) w st).

Definition wrapped (msg : string) (r : error) : error :=
  match r with
  | None => None
  | Some e => Some (Wrap e msg)
  end.

Definition StartContainer (id : string) : M error := λ st,
  let '(r, w) := cli_ContainerStart id (world st) in
  let r := wrapped ("Unable to start container " +:+ id) r in
  Val r (called (StartCall id r) w st).

Definition ContainerDetails (id : string) : M (result string) := λ st,
  let '(r, w) := cli_ContainerInspect id (world st) in
  let r := match r with
           | Ok ip => Ok ip
           | Err e => Err (Wrap e ("Unable to fetch details for container " +:+ id))
           end in
  Val r (called (DetailsCall id r) w st).

Definition StopContainer (id : string) : M error := λ st,
  let '(r, w) := cli_ContainerStop id (world st) in
  let r := wrapped ("Unable to stop container " +:+ id) r in
  Val r (called (StopCall id r) w st).

Definition KillContainer (id : string) : M error := λ st,
  let '(r, w) := cli_ContainerKill id (world st) in
  let r := wrapped ("Unable to kill container " +:+ id) r in
  Val r (called (KillCall id r) w st).

Definition RemoveContainer (id : string) : M error := λ st,
  let '(r, w) := cli_ContainerRemove id (world st) in
  let r := wrapped ("Unable to remove container " +:+ id) r in
  Val r (called (RemoveCall id r) w st).

(** ** The controller (package fpm) *)

Definition validControllerType (c : string) : bool :=
  existsb (String.eqb c) controllerTypes.

(** [NewReqController]: a controller with an empty pool and its counter at
    zero, or an error. *)
Definition NewReqController (conf : ControllerConfig) (w : World) : result State :=
  if negb (validControllerType (Type_ conf))
  then Err ("Invalid controller type: " +:+ Type_ conf)
  else
    match cli_NewClient w with
    | Some e => Err (Wrap e "Unable to initialize Docker client")
    | None =>
        Ok {| Config := conf; Containers := []; ContainerNo := 0;
              world := w; calls := [] |}
    end.

Definition containerImageName : M string :=
  gets (λ st, ContainerImage (Config st) +:+ ":" +:+ ContainerImageTag (Config st)).

Definition createNewContainer : M error :=
  modify (λ st, with_ContainerNo (wrap_int (ContainerNo st + 1)) st);;
  cName ← gets (λ st, Deployment (Config st) +:+ "-" +:+ fmt_d (ContainerNo st));
  image ← containerImageName;
  deployment ← gets (λ st, Deployment (Config st));
  c ← CreateContainer cName image deployment;
  match c with
  | Err err => mret (Some err)
  | Ok c =>
      modify (λ st, with_Containers
        (Containers st ++
           [{| Name := cName; Id := c; Started := false; Dirty := false;
               IPAddr := "" |}]) st);;
      mret None
  end.

Definition startContainers_iter (i : nat) (c : Container) : M error :=
  if Started c then mret None
  else
    err ← StartContainer (Id c);
    match err with
    | Some err => mret (Some err)
    | None =>
        details ← ContainerDetails (Id c);
        match details with
        | Err err => mret (Some err)
        | Ok ip =>
            let c := set_IPAddr ip c in
            let c := set_Started true c in
            store i c;;
            mret None
        end
    end.

Definition startContainers : M error := range_Containers startContainers_iter.

Definition stopContainers_iter (hard : bool) (i : nat) (c : Container) : M error :=
  if negb (Started c) then mret None
  else
    err ← StopContainer (Id c);
    err ← match err with
          | None => mret None
          | Some err =>
              if negb hard then mret (Some err)
              else KillContainer (Id c)
          end;
    match err with
    | Some err => mret (Some err)
    | None =>
        let c := set_Started false c in
        let c := set_IPAddr "" c in
        store i c;;
        mret None
    end.

Definition stopContainers (hard : bool) : M error :=
  range_Containers (stopContainers_iter hard).

(** The pool is only read here: the loop runs over the slice as it is. *)
Fixpoint cleanup_from (cs : list Container) : M error :=
  match cs with
  | [] => mret None
  | c :: cs' =>
      err ← (if Started c then KillContainer (Id c) else mret None);
      match err with
      | Some err => mret (Some err)
      | None =>
          err ← RemoveContainer (Id c);
          match err with
          | Some err => mret (Some err)
          | None => cleanup_from cs'
          end
      end
  end.

Definition cleanupContainers : M error :=
  cs ← gets Containers;
  cleanup_from cs.

Definition ready (c : Container) : bool := negb (Dirty c) && Started c.

(** [rand.Intn] panics on a bound that is not positive. *)
Definition Intn (n : Z) : M Z := λ st,
  if bool_decide (0 < n) then
    let '(r, w) := rand_Intn n (world st) in Val r (with_world w st)
  else Panic "invalid argument to Intn" st.

(** The probes [for attempts := 1; attempts <= ContainerAmount; attempts++]:
    [left] is the number of iterations still to run. *)
Fixpoint probe (left : nat) (amount : Z) : M (option Container) :=
  match left with
  | O => mret None
  | S left' =>
      random ← Intn amount;
      candidate ← index random;
      if ready candidate then mret (Some candidate)
      else probe left' amount
  end.

(** A counter that starts at 1 and stops above [ContainerAmount] makes
    [ContainerAmount] rounds, none when that is not positive.  This is the
    loop of the source for every [ContainerAmount] below [max_int]; at
    [max_int] the counter of the source wraps before its test fails, and its
    loop ends only on a probe that hits: the statements on a selection that
    finds nothing take [ContainerAmount < max_int]. *)
Definition getRandomContainer : M (result Container) :=
  amount ← gets (λ st, Z.of_nat (length (Containers st)));
  if amount =? 0 then mret (Err "No configured containers to choose from")
  else
    attempts ← gets (λ st, Z.to_nat (ContainerAmount (Config st)));
    quick ← probe attempts amount;
    match quick with
    | Some candidate => mret (Ok candidate)
    | None =>
        cs ← gets Containers;
        match List.find ready cs with
        | Some candidate => mret (Ok candidate)
        | None =>
            mret (Err "All containers are either shut down or marked as dirty")
        end
    end.

Definition setContainerDirty_iter (id : string) (i : nat) (c : Container) : M error :=
  if String.eqb (Id c) id
  then let c := set_Dirty true c in
       store i c;;
       mret None
  else mret None.

Definition setContainerDirty (id : string) : M unit :=
  range_Containers (setContainerDirty_iter id);;
  mret tt.

(** The creation loop of [Init]: [for i := 0; i < ContainerAmount; i++]. *)
Fixpoint create_loop (n : nat) : M error :=
  match n with
  | O => mret None
  | S n' =>
      err ← createNewContainer;
      match err with
      | Some err => mret (Some err)
      | None => create_loop n'
      end
  end.

Definition provision : M error :=
  n ← gets (λ st, Z.to_nat (ContainerAmount (Config st)));
  create_loop n.

Definition Init : M error :=
  err ← provision;
  match err with
  | Some err => mret (Some err)
  | None =>
      static ← gets (λ st, String.eqb (Type_ (Config st)) StaticController);
      if (static : bool) then startContainers else mret None
  end.

Definition Close : M error :=
  err ← cleanupContainers;
  mret (wrapped "Unable to cleanup containers" err).

(** ** The handler *)

(** [dst.Add(k, v)] *)
Definition Header_Add (k v : string) (dst : Header) : Header :=
  let k := CanonicalMIMEHeaderKey k in
  <[k := default [] (dst !! k) ++ [v]]> dst.

(** [copyHeader(dst, src)], [src] given as its entries in the order the
    [range] visits them. *)
Definition copyHeader (dst : Header) (src : list (string * list string)) : Header :=
  foldl (λ dst kvv, foldl (λ dst v, Header_Add kvv.1 v dst) dst kvv.2) dst src.

(** The values under a key, none when the key is absent, and the number of
    times a value occurs among them. *)
Definition values (k : string) (h : Header) : list string := default [] (h !! k).

Definition occurrences (v : string) (vv : list string) : nat :=
  length (filter (λ x, x = v) vv).

(** The values that the entries [src] bring under the canonical key [k]. *)
Definition added (k : string) (src : list (string * list string)) : list string :=
  flat_map (λ kvv, if decide (CanonicalMIMEHeaderKey kvv.1 = k) then kvv.2 else []) src.

(** [w.WriteHeader(code)]: the first call stands, and sends the header map
    as it is. *)
Definition WriteHeader (code : Z) (w : ResponseWriter) : ResponseWriter :=
  match w_Wrote w with
  | Some _ => w
  | None =>
      {| w_Header := w_Header w; w_Wrote := Some (code, w_Header w);
         w_Body := w_Body w |}
  end.

(** [io.Copy(w, body)]: a first write sends the status 200 if none was
    sent. *)
Definition io_Copy (body : string) (w : ResponseWriter) : ResponseWriter :=
  let w := WriteHeader 200 w in
  {| w_Header := w_Header w; w_Wrote := w_Wrote w; w_Body := w_Body w +:+ body |}.

Definition client_Do (req : Request) : M (result Response) := λ st,
  let '(r, w) := http_Do req (world st) in Val r (with_world w st).

Definition proxy_URL (url : URL) (chosen : Container) (port : Z) : URL :=
  {| Scheme := Scheme url; Host := IPAddr chosen +:+ ":" +:+ fmt_d port;
     Path := Path url; RawQuery := RawQuery url |}.

(** The first block of [ServeHTTP]: in dynamic mode, a pool whose first
    entry is not started is started. *)
Definition wakeUp : M error :=
  dynamic ← gets (λ st, String.eqb (Type_ (Config st)) DynamicController);
  dormant ← (if (dynamic : bool) then c ← index 0; mret (negb (Started c)) else mret false);
  if (dormant : bool) then startContainers else mret None.

(** The request [client.Do] is given. *)
Definition proxied (r proxyReq : Request) : Request :=
  {| req_Method := req_Method proxyReq; req_URL := req_URL proxyReq;
     req_Header := req_Header r; req_Body := req_Body proxyReq |}.

Definition ServeHTTP (w : ResponseWriter) (r : Request) : M ResponseWriter :=
  err ← wakeUp;
  match err with
  | Some _ => mret (WriteHeader StatusInternalServerError w)
  | None =>
      chosen ← getRandomContainer;
      match chosen with
      | Err _ => mret (WriteHeader StatusInternalServerError w)
      | Ok chosen =>
          port ← gets (λ st, ContainerPort (Config st));
          match http_NewRequest (req_Method r) (proxy_URL (req_URL r) chosen port)
                  (req_Body r) with
          | Err _ => mret (WriteHeader StatusInternalServerError w)
          | Ok proxyReq =>
              let proxyReq := proxied r proxyReq in
              res ← client_Do proxyReq;
              match res with
              | Err _ =>
                  setContainerDirty (Id chosen);;
                  mret (WriteHeader StatusBadGateway w)
              | Ok res =>
                  src ← gets (λ st, range_Header (res_Header res) (world st));
                  let w := {| w_Header := copyHeader (w_Header w) src;
                              w_Wrote := w_Wrote w; w_Body := w_Body w |} in
                  mret (io_Copy (res_Body res) (WriteHeader (StatusCode res) w))
              end
          end
      end
  end.

(** ** Runs of operations

    The operations of the controller, and what a sequence of them leaves
    behind whatever each one answers. *)
Inductive Op :=
| OpCreate
| OpProvision
| OpStartAll
| OpStopAll (hard : bool)
| OpCleanup
| OpSelectReady
| OpMarkDirty (id : string)
| OpInit
| OpClose
| OpServe (w : ResponseWriter) (r : Request).

Definition exec (o : Op) (st : State) : State :=
  match o with
  | OpCreate => final (createNewContainer st)
  | OpProvision => final (provision st)
  | OpStartAll => final (startContainers st)
  | OpStopAll hard => final (stopContainers hard st)
  | OpCleanup => final (cleanupContainers st)
  | OpSelectReady => final (getRandomContainer st)
  | OpMarkDirty id => final (setContainerDirty id st)
  | OpInit => final (Init st)
  | OpClose => final (Close st)
  | OpServe w r => final (ServeHTTP w r st)
  end.

Definition execs (os : list Op) (st : State) : State := foldl (λ st o, exec o st) st os.

End Controller.

Arguments State : clear implicits.
Arguments Res : clear implicits.
Arguments M : clear implicits.
Arguments Val {World A} a st.
Arguments Panic {World A} msg st.

(** ** What an iteration of a loop over the pool does

    [sweep ok ko cs cs' t e]: a loop over the entries [cs] whose iteration on
    an entry [c] either completes, leaving [c'] in its place after the calls
    [t] ([ok c c' t]), or returns [err] after the calls [t] ([ko c err t]),
    leaves the entries [cs'], makes the calls [t] and returns [e]. *)
Inductive sweep (ok : Container → Container → list Call → Prop)
    (ko : Container → string → list Call → Prop) :
    list Container → list Container → list Call → error → Prop :=
| sweep_end : sweep ok ko [] [] [] None
| sweep_next c c' t cs cs' ts e :
    ok c c' t → sweep ok ko cs cs' ts e →
    sweep ok ko (c :: cs) (c' :: cs') (t ++ ts) e
| sweep_return c err t cs :
    ko c err t → sweep ok ko (c :: cs) (c :: cs) t (Some err).

(** The iterations of [startContainers], [stopContainers] and
    [setContainerDirty] on one entry. *)
Definition start_ok (c c' : Container) (t : list Call) : Prop :=
  if Started c then c' = c ∧ t = []
  else ∃ ip, c' = set_Started true (set_IPAddr ip c) ∧
             t = [StartCall (Id c) None; DetailsCall (Id c) (Ok ip)].

Definition start_ko (c : Container) (err : string) (t : list Call) : Prop :=
  Started c = false ∧
  (t = [StartCall (Id c) (Some err)] ∨
   t = [StartCall (Id c) None; DetailsCall (Id c) (Err err)]).

Definition stop_ok (hard : bool) (c c' : Container) (t : list Call) : Prop :=
  if Started c then
    c' = set_IPAddr "" (set_Started false c) ∧
    (t = [StopCall (Id c) None] ∨
     hard = true ∧ ∃ err0, t = [StopCall (Id c) (Some err0); KillCall (Id c) None])
  else c' = c ∧ t = [].

Definition stop_ko (hard : bool) (c : Container) (err : string) (t : list Call) : Prop :=
  Started c = true ∧
  if hard
  then ∃ err0, t = [StopCall (Id c) (Some err0); KillCall (Id c) (Some err)]
  else t = [StopCall (Id c) (Some err)].

Definition dirty_ok (id : string) (c c' : Container) (t : list Call) : Prop :=
  c' = (if String.eqb (Id c) id then set_Dirty true c else c) ∧ t = [].

Definition dirty_ko (c : Container) (err : string) (t : list Call) : Prop := False.

(** What [stopContainers] leaves of an entry it has passed, and the calls an
    iteration that completes has made for it: none on an entry that is not
    started, a graceful stop that succeeds, or (only when [hard]) a graceful
    stop that fails followed by a kill that succeeds. *)
Definition halted (c : Container) : Container :=
  if Started c
  then {| Name := Name c; Id := Id c; Started := false; Dirty := Dirty c;
          IPAddr := "" |}
  else c.

Definition stop_calls (hard : bool) (c : Container) (t : list Call) : Prop :=
  if Started c then
    t = [StopCall (Id c) None] ∨
    hard = true ∧ ∃ err0, t = [StopCall (Id c) (Some err0); KillCall (Id c) None]
  else t = [].

(** The calls of an iteration of [cleanupContainers] that completes on an
    entry, and of one that returns an error: the kill of a started entry
    failed, or the removal did. *)
Definition kill_calls (c : Container) : list Call :=
  if Started c then [KillCall (Id c) None] else [].

Definition kill_remove (c : Container) : list Call :=
  kill_calls c ++ [RemoveCall (Id c) None].

Definition cleanup_failed (c : Container) (err : string) (t : list Call) : Prop :=
  (Started c = true ∧ t = [KillCall (Id c) (Some err)]) ∨
  t = kill_calls c ++ [RemoveCall (Id c) (Some err)].

(** The ids that the Docker daemon has handed out, read off the log. *)
Definition created_id (c : Call) : option string :=
  match c with
  | CreateCall _ _ _ (Ok id) => Some id
  | _ => None
  end.

Definition created_ids (t : list Call) : list string := omap created_id t.

(** The name of the container with sequence number [i]. *)
Definition name_of (conf : ControllerConfig) (i : Z) : string :=
  Deployment conf +:+ "-" +:+ fmt_d i.

(** What [setContainerDirty id] leaves of an entry. *)
Definition marked (id : string) (c : Container) : Container :=
  if String.eqb (Id c) id then set_Dirty true c else c.

(** The invariant of an entry: one that is not started has no address. *)
Definition address_inv (c : Container) : Prop := Started c = false → IPAddr c = "".

(** An entry as [createNewContainer] makes it. *)
Definition fresh (c : Container) : Prop :=
  Started c = false ∧ Dirty c = false ∧ IPAddr c = "".

(** What every operation leaves of an entry, and of a pool: the entry keeps
    its place, its name and its id, stays dirty if it was, and keeps the
    invariant if it had it; entries are only added, at the end, and have the
    invariant. *)
Definition entry_le (c c' : Container) : Prop :=
  Name c' = Name c ∧ Id c' = Id c ∧
  (Dirty c = true → Dirty c' = true) ∧
  (address_inv c → address_inv c').

Definition pool_le (cs cs' : list Container) : Prop :=
  ∃ cs1 new, cs' = cs1 ++ new ∧ Forall2 entry_le cs cs1 ∧ Forall address_inv new.

(** What a loop over the pool asks of its body: an iteration that completes
    has written at most its own entry, one that returns has written none. *)
Definition body_does {World} (body : nat → Container → M World error)
    (ok : Container → Container → list Call → Prop)
    (ko : Container → string → list Call → Prop) : Prop :=
  ∀ pre c suf (st : State World), Containers st = pre ++ c :: suf →
    match body (length pre) c st with
    | Val None st' =>
        ∃ c' t, ok c c' t ∧ Containers st' = pre ++ c' :: suf ∧
          calls st' = calls st ++ t ∧
          Config st' = Config st ∧ ContainerNo st' = ContainerNo st
    | Val (Some err) st' =>
        ∃ t, ko c err t ∧ Containers st' = Containers st ∧
          calls st' = calls st ++ t ∧
          Config st' = Config st ∧ ContainerNo st' = ContainerNo st
    | Panic _ _ => False
    end.

(** Every method leaves the pool above the pool it found, whatever it
    answers, a panic included. *)
Definition keeps {World A} (m : M World A) : Prop :=
  ∀ st, pool_le (Containers st) (Containers (final (m st))).

(** ** A scripted world

    A concrete [Runtime] on which the methods run by computation: the world
    is the list of the answers still to give, one per call; once the script
    is used up every call succeeds. *)
Inductive Answer :=
| Yes (s : string)
| No (msg : string)
| Num (n : Z).

Definition scripted_error (w : list Answer) : error * list Answer :=
  match w with
  | No msg :: w' => (Some msg, w')
  | _ :: w' => (None, w')
  | [] => (None, [])
  end.

Definition scripted_string (dflt : string) (w : list Answer) : result string * list Answer :=
  match w with
  | Yes s :: w' => (Ok s, w')
  | No msg :: w' => (Err msg, w')
  | Num _ :: w' => (Ok dflt, w')
  | [] => (Ok dflt, [])
  end.

Definition scripted_Intn (n : Z) (w : list Answer) : Z * list Answer :=
  match w with
  | Num r :: w' => (r mod n, w')
  | _ :: w' => (0, w')
  | [] => (0, [])
  end.

Definition scripted_Do (req : Request) (w : list Answer) : result Response * list Answer :=
  match w with
  | No msg :: w' => (Err msg, w')
  | Yes body :: w' =>
      (Ok {| StatusCode := 200; res_Header := {["Content-Type" := ["text/html"]]};
             res_Body := body |}, w')
  | Num code :: w' =>
      (Ok {| StatusCode := code; res_Header := ∅; res_Body := "" |}, w')
  | [] => (Ok {| StatusCode := 200; res_Header := ∅; res_Body := "" |}, [])
  end.

#[global] Instance Scripted : Runtime (list Answer) := {
  cli_NewClient := λ _, None;
  cli_ContainerCreate := λ _ _ name, scripted_string name;
  cli_ContainerStart := λ _, scripted_error;
  cli_ContainerInspect := λ _, scripted_string "172.17.0.2";
  cli_ContainerStop := λ _, scripted_error;
  cli_ContainerKill := λ _, scripted_error;
  cli_ContainerRemove := λ _, scripted_error;
  rand_Intn := scripted_Intn;
  http_NewRequest := λ method url body,
    Ok {| req_Method := method; req_URL := url; req_Header := ∅; req_Body := body |};
  http_Do := scripted_Do;
  CanonicalMIMEHeaderKey := λ k, k;
  range_Header := λ h _, map_to_list h
}.

Definition conf_of (type : string) (amount : Z) : ControllerConfig :=
  {| Deployment := "web"; ContainerImage := "php"; ContainerImageTag := "8-fpm";
     ContainerPort := 9000; ContainerAmount := amount; Type_ := type;
     DynIdleSeconds := 60 |}.

Definition pool_of (type : string) (amount : Z) (cs : list Container)
    (script : list Answer) : State (list Answer) :=
  {| Config := conf_of type amount; Containers := cs; ContainerNo := Z.of_nat (length cs);
     world := script; calls := [] |}.

Definition entry (id : string) (started dirty : bool) : Container :=
  {| Name := "web-" +:+ id; Id := id; Started := started; Dirty := dirty;
     IPAddr := if started then "10.0.0." +:+ id else "" |}.

(** Requests, response writers and pools to run the controller on. *)
Definition blank : ResponseWriter :=
  {| w_Header := ∅; w_Wrote := None; w_Body := "" |}.

Definition get_index : Request :=
  {| req_Method := "GET";
     req_URL := {| Scheme := "http"; Host := "localhost"; Path := "/index.php";
                   RawQuery := "" |};
     req_Header := ∅; req_Body := "" |}.

(** A static pool of two ready containers: the probe draws the first, the
    dispatch to it is refused. *)
Definition two_ready : State (list Answer) :=
  pool_of "static" 2 [entry "1" true false; entry "2" true false]
    [Num 0; No "connection refused"].

(** A dormant pool of two is started, and started again. *)
Definition dormant_two : State (list Answer) :=
  pool_of "dynamic" 2 [entry "1" false false; entry "2" false false]
    [Yes ""; Yes "172.17.0.2"; Yes ""; Yes "172.17.0.3"].

Definition awake_two : State (list Answer) :=
  {| Config := conf_of "dynamic" 2;
     Containers :=
       [set_Started true (set_IPAddr "172.17.0.2" (entry "1" false false));
        set_Started true (set_IPAddr "172.17.0.3" (entry "2" false false))];
     ContainerNo := 2; world := [];
     calls := [StartCall "1" None; DetailsCall "1" (Ok "172.17.0.2");
               StartCall "2" None; DetailsCall "2" (Ok "172.17.0.3")] |}.

(** A dirty container is stopped the hard way, started, and selected around. *)
Definition one_dirty : State (list Answer) :=
  pool_of "static" 2 [entry "1" true true; entry "2" true false] [No "busy"].

(** A static pool of one container answers with a page. *)
Definition one_ready : State (list Answer) :=
  pool_of "static" 1 [entry "1" true false] [Num 0; Yes "<html></html>"].

Definition with_type : ResponseWriter :=
  {| w_Header := {["Content-Type" := ["text/plain"]]}; w_Wrote := None; w_Body := "" |}.

(** ** More of the controller, and of what its operations do *)

(** [DefaultConfig] (controller.go, lines 46-56) *)
Definition DefaultConfig (deployment image tag : string) (port : Z) : ControllerConfig :=
  {| Deployment := deployment; ContainerImage := image; ContainerImageTag := tag;
     ContainerPort := port; ContainerAmount := 1; Type_ := "dynamic";
     DynIdleSeconds := 60 |}.

(** The kinds of calls on the Docker client. *)
Definition is_create (c : Call) : bool :=
  match c with CreateCall _ _ _ _ => true | _ => false end.
Definition is_start (c : Call) : bool :=
  match c with StartCall _ _ => true | _ => false end.
Definition is_details (c : Call) : bool :=
  match c with DetailsCall _ _ => true | _ => false end.
Definition is_stop (c : Call) : bool :=
  match c with StopCall _ _ => true | _ => false end.
Definition is_kill (c : Call) : bool :=
  match c with KillCall _ _ => true | _ => false end.
Definition is_remove (c : Call) : bool :=
  match c with RemoveCall _ _ => true | _ => false end.

(** The calls an operation may make. *)
Definition allowed (o : Op) (c : Call) : bool :=
  match o with
  | OpCreate | OpProvision => is_create c
  | OpStartAll | OpServe _ _ => is_start c || is_details c
  | OpStopAll hard => is_stop c || (hard && is_kill c)
  | OpCleanup | OpClose => is_kill c || is_remove c
  | OpSelectReady | OpMarkDirty _ => false
  | OpInit => is_create c || is_start c || is_details c
  end.

(** [logs P st st']: from [st] to [st'] the log has grown by calls that [P]
    admits, and the configuration is the same; [makes P m]: so it is between
    the state [m] finds and the one it leaves, whatever it answers. *)
Definition logs {World} (P : Call → bool) (st st' : State World) : Prop :=
  Config st' = Config st ∧
  ∃ t, calls st' = calls st ++ t ∧ Forall (λ c, P c = true) t.

Definition makes {World A} (P : Call → bool) (m : M World A) : Prop :=
  ∀ st, logs P st (final (m st)).

(** Between [st] and [st'] nothing but the world has changed. *)
Definition only_world {World} (st st' : State World) : Prop :=
  Containers st' = Containers st ∧ calls st' = calls st ∧
  Config st' = Config st ∧ ContainerNo st' = ContainerNo st.

(** Between [c] and [c'] nothing but the dirty flag has changed. *)
Definition same_but_dirty (c c' : Container) : Prop :=
  Name c' = Name c ∧ Id c' = Id c ∧ Started c' = Started c ∧ IPAddr c' = IPAddr c.

(** Between [c] and [c'] the dirty flag, the name and the id are the same. *)
Definition same_but_run (c c' : Container) : Prop :=
  Name c' = Name c ∧ Id c' = Id c ∧ Dirty c' = Dirty c.

Definition is_serve (o : Op) : bool :=
  match o with OpServe _ _ => true | _ => false end.

(** The calls that start an entry, read off the entry once it is started. *)
Definition start_pair (c : Container) : list Call :=
  [StartCall (Id c) None; DetailsCall (Id c) (Ok (IPAddr c))].

(** The name that a call has asked the daemon to give a new container. *)
Definition requested_name (c : Call) : option string :=
  match c with
  | CreateCall name _ _ _ => Some name
  | _ => None
  end.

(** More pools to run the controller on. *)
Definition two_ready_refused : State (list Answer) :=
  {| Config := conf_of "static" 2;
     Containers := [set_Dirty true (entry "1" true false); entry "2" true false];
     ContainerNo := 2; world := []; calls := [] |}.

Definition hidden_stopped : State (list Answer) :=
  pool_of "dynamic" 2 [entry "1" true true; entry "2" false false] [Num 1].

Definition stopped_two : State (list Answer) :=
  Eval vm_compute in final (stopContainers false awake_two).

Definition restarted_two : State (list Answer) :=
  Eval vm_compute in final (startContainers stopped_two).

Definition two_headers : Header :=
  {["Content-Type" := ["text/html"]; "X-Powered-By" := ["PHP"; "FPM"]]}.

(** ** The listeners (fcgi.go)

    What a listener needs of the machine is a second interface over the
    world: the user database, [strconv.Atoi], the socket calls, and
    [fcgi.Serve].  The calls that bind, own, remove and close the socket are
    logged. *)
Inductive HostCall :=
| ListenCall (network address : string) (r : error)
| ChownCall (path : string) (uid gid : Z) (r : error)
| RemoveFileCall (path : string)
| CloseCall (address : string).

Class Machine (World : Type) := {
  (** [user.Lookup], [user.LookupGroup]: the [Uid], the [Gid] *)
  user_Lookup : string → World → result string * World;
  user_LookupGroup : string → World → result string * World;
  strconv_Atoi : string → result Z;
  (** [net.Listen(network, address)]; the listener is known by its address *)
  net_Listen : string → string → World → error * World;
  os_Chown : string → Z → Z → World → error * World;
  os_Remove : string → World → error * World;
  listener_Close : string → World → error * World;
  (** [fcgi.Serve(l, &h)] accepts connections on the listener and hands each
      request to [h.ServeHTTP] in a goroutine of its own.  It returns only
      when accepting fails, and then leaves the controller as the handlers
      have left it; otherwise there is no return ([None]): it waits for the
      next connection, or a handler has panicked, which ends the process
      where it is. *)
  fcgi_Serve : string → State World → option (State World)
}.

(** How a call of a listener function ends: it returns an error or [nil],
    having made the socket calls [host], with the controller as it was left
    if one was made, and the world; or it panics, its deferred calls made on
    the way out; or it is in [fcgi.Serve] for good, its deferred calls not
    made. *)
Inductive Served (World : Type) : Type :=
| Returned (e : error) (host : list HostCall) (h : option (State World)) (w : World)
| Crashed (msg : string) (host : list HostCall) (w : World)
| InServe (host : list HostCall).
Arguments Returned {World} e host h w.
Arguments Crashed {World} msg host w.
Arguments InServe {World} host.


Section Listeners.
Context {World : Type} `{RT : Runtime World} `{HS : Machine World}.

(** The end that both listener functions share (fcgi.go, lines 44-55 and
    64-75): the controller is made and initialised, and the requests are
    served; the value of [fcgi.Serve] is dropped. *)
Definition serve_controller (config : ControllerConfig) (l : string)
    (host : list HostCall) (w : World) : Served World :=
  match NewReqController config w with
  | Err e =>
      Returned (Some (Wrap e "Unable to setup request controller")) host None w
  | Ok h =>
      match Init h with
      | Val (Some e) h =>
          Returned (Some (Wrap e "Unable to initialize request controller"))
            host (Some h) (world h)
      | Val None h =>
          match fcgi_Serve l h with
          | Some h => Returned None host (Some h) (world h)
          | None => InServe host
          end
      | Panic msg h => Crashed msg host (world h)
      end
  end.

(** [defer l.Close()] and [defer os.Remove(path)]: on the way out, by a
    return or by a panic, the file is removed, then the listener closed;
    what they return is dropped.  There is no way out of a [fcgi.Serve] that
    does not return. *)
Definition deferred (path : string) (r : Served World) : Served World :=
  let after w := (listener_Close path (os_Remove path w).2).2 in
  let host := [RemoveFileCall path; CloseCall path] in
  match r with
  | Returned e hs h w =>
      Returned e (hs ++ host) (with_world (after w) <$> h) (after w)
  | Crashed msg hs w => Crashed msg (hs ++ host) (after w)
  | InServe hs => InServe hs
  end.

Definition NewSocketFCGIServer (config : ControllerConfig)
    (path owner group : string) (w : World) : Served World :=
  let '(usr, w) := user_Lookup owner w in
  match usr with
  | Err e => Returned (Some (Wrap e ("Unable to find user " +:+ owner))) [] None w
  | Ok uid =>
  match strconv_Atoi uid with
  | Err e => Returned (Some (Wrap e "User ID is not a number")) [] None w
  | Ok userId =>
  let '(grp, w) := user_LookupGroup group w in
  match grp with
  | Err e => Returned (Some (Wrap e ("Unable to find group " +:+ group))) [] None w
  | Ok gid =>
  match strconv_Atoi gid with
  | Err e => Returned (Some (Wrap e "Group ID is not a number")) [] None w
  | Ok groupId =>
  let '(r, w) := net_Listen "unix" path w in
  match r with
  | Some e =>
      Returned (Some (Wrap e ("Unable to listen on " +:+ path)))
        [ListenCall "unix" path r] None w
  | None =>
      deferred path
        (let '(c, w) := os_Chown path userId groupId w in
         let host := [ListenCall "unix" path r; ChownCall path userId groupId c] in
         match c with
         | Some e =>
             Returned
               (Some (Wrap e ("Unable to change socker file ownership to "
                              +:+ owner +:+ ":" +:+ group)))
               host None w
         | None => serve_controller config path host w
         end)
  end end end end end.

Definition NewTCPFCGIServer (config : ControllerConfig)
    (ipAddr : string) (port : Z) (w : World) : Served World :=
  let address := ipAddr +:+ ":" +:+ fmt_d port in
  let '(r, w) := net_Listen "tcp" address w in
  match r with
  | Some e =>
      Returned (Some (Wrap e ("Unable to listen on " +:+ address)))
        [ListenCall "tcp" address r] None w
  | None => serve_controller config address [ListenCall "tcp" address r] w
  end.

End Listeners.

(** The machine of the scripted world: ids are read in decimal, and
    accepting fails at once. *)
#[global] Instance Scripted_Machine : Machine (list Answer) := {
  user_Lookup := λ _, scripted_string "1000";
  user_LookupGroup := λ _, scripted_string "33";
  strconv_Atoi := λ s,
    match NilZero.int_of_string s with
    | Some d => Ok (Z.of_int d)
    | None => Err "invalid syntax"
    end;
  net_Listen := λ _ _, scripted_error;
  os_Chown := λ _ _ _, scripted_error;
  os_Remove := λ _, scripted_error;
  listener_Close := λ _, scripted_error;
  fcgi_Serve := λ _ st, Some st
}.

(** The same machine with a listener that never fails: serving goes on. *)
Definition Accepting : Machine (list Answer) :=
  {| user_Lookup := user_Lookup; user_LookupGroup := user_LookupGroup;
     strconv_Atoi := strconv_Atoi; net_Listen := net_Listen;
     os_Chown := os_Chown; os_Remove := os_Remove;
     listener_Close := listener_Close; fcgi_Serve := λ _ _, None |}.

(** * Properties *)

Section Properties.
Context {World : Type} `{RT : Runtime World}.
Implicit Types (st : State World) (c : Container) (cs : list Container).

Ltac run := unfold mbind, M_bind, mret, M_ret, gets, modify in *.

(** ** Reading and writing an entry *)

Lemma index_lookup st (i : nat) c :
  Containers st !! i = Some c → index (Z.of_nat i) st = Val c st.
Proof.
  intros Hi. unfold index. rewrite bool_decide_eq_true_2 by lia.
  by rewrite Nat2Z.id, Hi.
Qed.

Lemma store_middle st pre c suf c' :
  Containers st = pre ++ c :: suf →
  store (length pre) c' st = Val tt (with_Containers (pre ++ c' :: suf) st).
Proof.
  intros Hcs. unfold store. rewrite Hcs.
  rewrite bool_decide_eq_true_2 by (rewrite length_app; simpl; lia).
  by rewrite insert_app_r_alt, Nat.sub_diag by lia.
Qed.

(** ** Loops over the pool *)

Section Range.
Variable body : nat → Container → M World error.
Variables (ok : Container → Container → list Call → Prop)
          (ko : Container → string → list Call → Prop).

Lemma range_from_sweep :
  body_does body ok ko →
  ∀ suf pre st, Containers st = pre ++ suf →
    ∃ e st' suf' t,
      range_from (length suf) (length pre) body st = Val e st' ∧
      sweep ok ko suf suf' t e ∧
      Containers st' = pre ++ suf' ∧ calls st' = calls st ++ t ∧
      Config st' = Config st ∧ ContainerNo st' = ContainerNo st.
Proof.
  intros Hbody. induction suf as [|c suf IH]; intros pre st Hcs.
  - exists None, st, [], []. simpl.
    split_and!; rewrite ?app_nil_r in *; try done. constructor.
  - simpl. run. erewrite index_lookup; last by rewrite Hcs, list_lookup_middle.
    specialize (Hbody pre c suf st Hcs).
    destruct (body (length pre) c st) as [[err|] st1|]; [| |done].
    + destruct Hbody as (t & Hko & Hcs1 & Hcalls & Hconf & Hno).
      exists (Some err), st1, (c :: suf), t. split_and!; try done.
      * by constructor.
      * congruence.
    + destruct Hbody as (c' & t & Hok & Hcs1 & Hcalls & Hconf & Hno).
      destruct (IH (pre ++ [c']) st1) as (e & st' & suf' & ts & Hrun & Hsw & ? & ? & ? & ?).
      { by rewrite <- app_assoc. }
      rewrite length_app, Nat.add_1_r in Hrun.
      exists e, st', (c' :: suf'), (t ++ ts). split_and!; try congruence.
      * by constructor.
      * rewrite H. by rewrite <- app_assoc.
      * rewrite H0, Hcalls. by rewrite app_assoc.
Qed.

Lemma range_Containers_sweep :
  body_does body ok ko →
  ∀ st, ∃ e st' cs' t,
    range_Containers body st = Val e st' ∧
    sweep ok ko (Containers st) cs' t e ∧
    Containers st' = cs' ∧ calls st' = calls st ++ t ∧
    Config st' = Config st ∧ ContainerNo st' = ContainerNo st.
Proof.
  intros Hbody st. unfold range_Containers. run.
  destruct (range_from_sweep Hbody (Containers st) [] st eq_refl)
    as (e & st' & cs' & t & ? & ? & ? & ? & ? & ?).
  by exists e, st', cs', t.
Qed.

End Range.

(** A loop whose body passes over every entry it meets changes nothing. *)
Lemma range_from_skip (body : nat → Container → M World error) (P : Container → Prop) :
  (∀ i c st, P c → body i c st = Val None st) →
  ∀ suf pre st, Containers st = pre ++ suf → Forall P suf →
    range_from (length suf) (length pre) body st = Val None st.
Proof.
  intros Hskip. induction suf as [|c suf IH]; intros pre st Hcs HP; [done|].
  inversion_clear HP. simpl. run.
  erewrite index_lookup; last by rewrite Hcs, list_lookup_middle.
  rewrite Hskip by done.
  specialize (IH (pre ++ [c]) st). rewrite length_app, Nat.add_1_r in IH.
  apply IH; [by rewrite <- app_assoc | done].
Qed.

Lemma sweep_Forall2 ok ko (R : Container → Container → Prop) cs cs' t e :
  (∀ c, R c c) → (∀ c c' t, ok c c' t → R c c') →
  sweep ok ko cs cs' t e → Forall2 R cs cs'.
Proof.
  intros Hrefl Hok. induction 1; [constructor|constructor; eauto|].
  constructor; [done|]. by apply Forall_Forall2_diag, Forall_forall.
Qed.

(** ** The three loops that write the pool *)

Ltac call_client :=
  unfold StartContainer, ContainerDetails, StopContainer, KillContainer,
    RemoveContainer, CreateContainer, wrapped.

(** The calls an iteration has made are read off the log first; they decide
    which case of the iteration's description applies. *)
Ltac iter_done :=
  split; cycle 1;
  [ split_and!;
    [ done
    | first [ reflexivity | by rewrite <- app_assoc | symmetry; apply app_nil_r ]
    | done | done ]
  | naive_solver ].

Lemma startContainers_iter_does :
  body_does startContainers_iter start_ok start_ko.
Proof.
  intros pre c suf st Hcs. unfold startContainers_iter, start_ok, start_ko.
  destruct (Started c) eqn:Hs; run; [exists c, []; iter_done|].
  call_client.
  destruct (cli_ContainerStart (Id c) (world st)) as [[e|] w1]; simpl.
  { eexists. iter_done. }
  destruct (cli_ContainerInspect (Id c) w1) as [[ip|e] w2]; simpl.
  - erewrite store_middle by (simpl; done). simpl.
    eexists _, _. iter_done.
  - eexists. iter_done.
Qed.

Lemma stopContainers_iter_does hard :
  body_does (stopContainers_iter hard) (stop_ok hard) (stop_ko hard).
Proof.
  intros pre c suf st Hcs. unfold stopContainers_iter, stop_ok, stop_ko.
  destruct (Started c) eqn:Hs; run; simpl; [|exists c, []; iter_done].
  call_client.
  destruct (cli_ContainerStop (Id c) (world st)) as [[e|] w1]; simpl.
  - destruct hard; simpl; [|eexists; iter_done].
    destruct (cli_ContainerKill (Id c) w1) as [[e'|] w2]; simpl.
    + eexists. iter_done.
    + erewrite store_middle by (simpl; done). simpl.
      eexists _, _. iter_done.
  - erewrite store_middle by (simpl; done). simpl.
    eexists _, _. iter_done.
Qed.

Lemma setContainerDirty_iter_does id :
  body_does (World:=World) (setContainerDirty_iter id) (dirty_ok id) dirty_ko.
Proof.
  intros pre c suf st Hcs. unfold setContainerDirty_iter, dirty_ok.
  destruct (String.eqb (Id c) id); run; simpl.
  - erewrite store_middle by done. simpl.
    eexists _, []. iter_done.
  - exists c, []. iter_done.
Qed.

Lemma startContainers_sweep st :
  ∃ e st' t,
    startContainers st = Val e st' ∧
    sweep start_ok start_ko (Containers st) (Containers st') t e ∧
    calls st' = calls st ++ t ∧
    Config st' = Config st ∧ ContainerNo st' = ContainerNo st.
Proof.
  destruct (range_Containers_sweep _ _ _ startContainers_iter_does st)
    as (e & st' & cs' & t & ? & ? & <- & ? & ? & ?).
  by exists e, st', t.
Qed.

Lemma stopContainers_sweep hard st :
  ∃ e st' t,
    stopContainers hard st = Val e st' ∧
    sweep (stop_ok hard) (stop_ko hard) (Containers st) (Containers st') t e ∧
    calls st' = calls st ++ t ∧
    Config st' = Config st ∧ ContainerNo st' = ContainerNo st.
Proof.
  destruct (range_Containers_sweep _ _ _ (stopContainers_iter_does hard) st)
    as (e & st' & cs' & t & ? & ? & <- & ? & ? & ?).
  by exists e, st', t.
Qed.

Lemma setContainerDirty_sweep id st :
  ∃ st' t,
    setContainerDirty id st = Val tt st' ∧
    sweep (dirty_ok id) dirty_ko (Containers st) (Containers st') t None ∧
    calls st' = calls st ++ t ∧
    Config st' = Config st ∧ ContainerNo st' = ContainerNo st.
Proof.
  destruct (range_Containers_sweep _ _ _ (setContainerDirty_iter_does id) st)
    as (e & st' & cs' & t & Hrun & Hsw & <- & ? & ? & ?).
  exists st', t. unfold setContainerDirty. run. rewrite Hrun.
  destruct e as [err|]; [|done].
  exfalso. clear -Hsw. remember (Some err) as e eqn:He.
  induction Hsw; [done|by apply IHHsw|]. by match goal with H : dirty_ko _ _ _ |- _ => destruct H end.
Qed.

(** ** stopContainers *)

Lemma sweep_stop_split hard cs cs' t e :
  sweep (stop_ok hard) (stop_ko hard) cs cs' t e →
  ∃ done rest ts t',
    cs = done ++ rest ∧ cs' = (halted <$> done) ++ rest ∧
    Forall2 (stop_calls hard) done ts ∧ t = concat ts ++ t' ∧
    match e with
    | None => rest = [] ∧ t' = []
    | Some err =>
        ∃ c suf, rest = c :: suf ∧ Started c = true ∧
          if hard
          then ∃ err0, t' = [StopCall (Id c) (Some err0); KillCall (Id c) (Some err)]
          else t' = [StopCall (Id c) (Some err)]
    end.
Proof.
  induction 1 as [|c c' t cs cs' ts e Hok _ IH|c err t cs [Hs Hko]].
  - by exists [], [], [], [].
  - destruct IH as (done & rest & tss & t' & -> & -> & Hts & -> & He).
    exists (c :: done), rest, (t :: tss), t'.
    unfold stop_ok in Hok. split_and!; try done.
    + simpl. f_equal. unfold halted. by destruct (Started c); destruct Hok as [-> _].
    + constructor; [|done]. unfold stop_calls. by destruct (Started c); destruct Hok as [_ Ht].
    + simpl. by rewrite app_assoc.
  - exists [], (c :: cs), [], t. split_and!; try done. by exists c, cs.
Qed.

(** C4: [stopContainers hard] always returns.  It has passed the entries
    [done] and left the entries [rest] as they were.  An entry of [done] that
    was not started was skipped: it is unchanged and no call was made for it;
    one that was started has lost its started flag and its address, after a
    graceful stop that succeeded or, when [hard], after a graceful stop that
    failed and a forced kill that succeeded, and the loop went on.  When an
    error is returned, [rest] begins with the started entry [c] whose
    graceful stop failed: without [hard] the error is that of the stop and no
    kill was tried; with [hard] the kill was tried and the error is its own;
    in both cases [c] is still started and no call was made for the entries
    after it.  Without an error every entry has been passed.  Field by
    field: the entry left at the index of a started entry of [done] is not
    started and has the empty address, with the name, the id and the dirty
    flag it had; an entry of [done] that was not started, and every entry of
    [rest], is at its index as it was. *)
Theorem stopContainers_graceful_stop_failure hard st :
  ∃ e st' done rest ts t,
    stopContainers hard st = Val e st' ∧
    Containers st = done ++ rest ∧
    Containers st' = (halted <$> done) ++ rest ∧
    Forall2 (stop_calls hard) done ts ∧
    calls st' = calls st ++ concat ts ++ t ∧
    match e with
    | None => rest = [] ∧ t = []
    | Some err =>
        ∃ c suf, rest = c :: suf ∧ Started c = true ∧
          if hard
          then ∃ err0, t = [StopCall (Id c) (Some err0); KillCall (Id c) (Some err)]
          else t = [StopCall (Id c) (Some err)]
    end ∧
    (∀ (i : nat) c, done !! i = Some c → Started c = true →
       ∃ c', Containers st' !! i = Some c' ∧
         Started c' = false ∧ IPAddr c' = "" ∧
         Name c' = Name c ∧ Id c' = Id c ∧ Dirty c' = Dirty c) ∧
    (∀ (i : nat) c, done !! i = Some c → Started c = false →
       Containers st' !! i = Some c) ∧
    (∀ (i : nat) c, rest !! i = Some c →
       Containers st !! (length done + i)%nat = Some c ∧
       Containers st' !! (length done + i)%nat = Some c).
Proof.
  destruct (stopContainers_sweep hard st) as (e & st' & t & Hrun & Hsw & Hcalls & _).
  destruct (sweep_stop_split _ _ _ _ _ Hsw)
    as (done & rest & ts & t' & Hcs & Hcs' & ? & -> & ?).
  exists e, st', done, rest, ts, t'. split_and!; try done.
  - intros i c Hi Hs.
    exists {| Name := Name c; Id := Id c; Started := false; Dirty := Dirty c;
              IPAddr := "" |}.
    split; [|done]. rewrite Hcs'. apply lookup_app_l_Some.
    rewrite list_lookup_fmap, Hi. simpl. unfold halted. by rewrite Hs.
  - intros i c Hi Hs. rewrite Hcs'. apply lookup_app_l_Some.
    rewrite list_lookup_fmap, Hi. simpl. unfold halted. by rewrite Hs.
  - intros i c Hi. rewrite Hcs, Hcs'. split.
    + by rewrite lookup_app_r, Nat.add_comm, Nat.add_sub by lia.
    + rewrite lookup_app_r by (rewrite length_fmap; lia).
      by rewrite length_fmap, Nat.add_comm, Nat.add_sub.
Qed.

(** ** startContainers *)

Lemma sweep_start_all_started cs cs' t :
  sweep start_ok start_ko cs cs' t None → Forall (λ c, Started c = true) cs'.
Proof.
  remember None as e eqn:He. induction 1 as [|c c' t cs cs' ts e Hok _ IH|]; [done| |done].
  constructor; [|by apply IH]. unfold start_ok in Hok.
  destruct (Started c) eqn:Hs; [by destruct Hok as [-> _]|].
  by destruct Hok as (ip & -> & _).
Qed.

Lemma startContainers_all_started st :
  Forall (λ c, Started c = true) (Containers st) → startContainers st = Val None st.
Proof.
  intros Hall. unfold startContainers, range_Containers. run.
  apply (range_from_skip _ (λ c, Started c = true)) with (pre := []); [|done..].
  intros i c st' Hs. unfold startContainers_iter. by rewrite Hs.
Qed.

(** C6: when [startContainers] has returned without an error, a second run
    on the pool it left (whatever has happened to the world since) passes
    over every entry: it returns without an error and leaves the state as it
    found it, so the pool (started flags and addresses), the world and the
    log of calls are the same: no start and no inspect call is made. *)
Theorem startContainers_idempotent st st1 :
  startContainers st = Val None st1 →
  ∀ st2, Containers st2 = Containers st1 → startContainers st2 = Val None st2.
Proof.
  intros Hrun st2 Hcs.
  destruct (startContainers_sweep st) as (e & st' & t & Hrun' & Hsw & _).
  rewrite Hrun in Hrun'. injection Hrun' as <- <-.
  apply startContainers_all_started. rewrite Hcs.
  by eapply sweep_start_all_started.
Qed.

(** ** getRandomContainer *)

Lemma probe_ready (left : nat) st :
  IntnInRange → Containers st ≠ [] →
  ∃ q st',
    probe left (Z.of_nat (length (Containers st))) st = Val q st' ∧
    Containers st' = Containers st ∧ calls st' = calls st ∧
    Config st' = Config st ∧ ContainerNo st' = ContainerNo st ∧
    ∀ c, q = Some c → c ∈ Containers st ∧ ready c = true.
Proof.
  intros Hrand. revert st. induction left as [|left IH]; intros st Hne.
  { by exists None, st. }
  assert (0 < Z.of_nat (length (Containers st))) as Hpos.
  { destruct (Containers st); [done|simpl; lia]. }
  simpl. run. unfold Intn. rewrite bool_decide_eq_true_2 by done.
  specialize (Hrand _ (world st) Hpos).
  destruct (rand_Intn _ (world st)) as [random w]. simpl in Hrand.
  unfold index. rewrite bool_decide_eq_true_2 by lia. simpl.
  destruct (Containers st !! Z.to_nat random) as [candidate|] eqn:Hc; last first.
  { apply lookup_ge_None in Hc. lia. }
  destruct (ready candidate) eqn:Hready.
  - exists (Some candidate), (with_world w st). split_and!; try done.
    intros c [= <-]. split; [|done]. by eapply list_elem_of_lookup_2.
  - destruct (IH (with_world w st) Hne) as (q & st' & ? & ? & ? & ? & ? & ?).
    by exists q, st'.
Qed.

Lemma getRandomContainer_spec st :
  IntnInRange →
  ∃ r st',
    getRandomContainer st = Val r st' ∧
    Containers st' = Containers st ∧ calls st' = calls st ∧
    Config st' = Config st ∧ ContainerNo st' = ContainerNo st ∧
    match r with
    | Ok c => c ∈ Containers st ∧ ready c = true
    | Err _ => Forall (λ c, ready c = false) (Containers st)
    end.
Proof.
  intros Hrand. unfold getRandomContainer. run.
  destruct (Containers st) as [|c0 cs0] eqn:Hcs.
  { by exists (Err "No configured containers to choose from"), st. }
  rewrite <- Hcs.
  assert ((Z.of_nat (length (Containers st)) =? 0) = false) as ->.
  { rewrite Hcs. simpl. lia. }
  destruct (probe_ready (Z.to_nat (ContainerAmount (Config st))) st Hrand)
    as (q & st' & -> & Hcs' & ? & ? & ? & Hq); [by rewrite Hcs|].
  destruct q as [c|]; [by exists (Ok c), st'; split_and!; try done; apply Hq|].
  rewrite Hcs'. destruct (find ready (Containers st)) as [c|] eqn:Hfind.
  - apply find_some in Hfind as [Hin ?]. apply list_elem_of_In in Hin.
    by exists (Ok c), st'.
  - eexists (Err _), st'. split_and!; try done.
    apply Forall_forall. intros c Hin. apply list_elem_of_In in Hin.
    by eapply find_none in Hfind.
Qed.

Lemma ready_iff c : ready c = true ↔ Started c = true ∧ Dirty c = false.
Proof. unfold ready. destruct (Dirty c), (Started c); simpl; intuition congruence. Qed.

(** C1: whatever indices the probes draw (in range, as [rand.Intn] does),
    and for a [ContainerAmount] below the largest [int] (where the counter
    of the probes does not wrap), [getRandomContainer] returns, and leaves
    the pool as it is.  A container
    it returns is an entry of the pool that is started and not dirty, and one
    is returned whenever the pool has such an entry; an error is returned
    exactly when the pool is empty or has no such entry; when exactly one
    entry of the pool is ready, that entry is returned. *)
Theorem getRandomContainer_returns_ready st :
  IntnInRange →
  ContainerAmount (Config st) < max_int →
  ∃ r st',
    getRandomContainer st = Val r st' ∧ Containers st' = Containers st ∧
    (∀ c, r = Ok c → c ∈ Containers st ∧ Started c = true ∧ Dirty c = false) ∧
    ((∃ c, c ∈ Containers st ∧ Started c = true ∧ Dirty c = false) →
     ∃ c, r = Ok c) ∧
    ((∃ msg, r = Err msg) ↔
     Containers st = [] ∨
     ∀ c, c ∈ Containers st → ¬ (Started c = true ∧ Dirty c = false)) ∧
    (∀ i c, Containers st !! i = Some c → Started c = true → Dirty c = false →
       (∀ j c', j ≠ i → Containers st !! j = Some c' →
          ¬ (Started c' = true ∧ Dirty c' = false)) →
       r = Ok c).
Proof.
  intros Hrand _.
  destruct (getRandomContainer_spec st Hrand) as (r & st' & Hrun & Hcs & _ & _ & _ & Hr).
  pose proof ready_iff as Hready.
  exists r, st'. split_and!; try done.
  - intros c ->. destruct Hr as [? ?%Hready]. tauto.
  - intros (c & Hin & Hc). destruct r as [c'|msg]; [by exists c'|].
    rewrite Forall_forall in Hr. apply Hr in Hin. apply Hready in Hc. congruence.
  - split.
    + intros [msg ->]. right. intros c Hin Hc%Hready.
      rewrite Forall_forall in Hr. apply Hr in Hin. congruence.
    + intros Hnone. destruct r as [c|msg]; [|by exists msg].
      destruct Hr as [Hin Hc%Hready]. destruct Hnone as [Hnil|Hnone].
      * rewrite Hnil in Hin. by apply elem_of_nil in Hin.
      * by apply Hnone in Hin.
  - intros i c Hi Hs Hd Hothers. destruct r as [c'|msg].
    + destruct Hr as [Hin Hc'%Hready].
      apply list_elem_of_lookup in Hin as [j Hj].
      destruct (decide (j = i)) as [->|Hne]; [congruence|].
      by destruct (Hothers j c' Hne Hj).
    + rewrite Forall_forall in Hr.
      assert (ready c = true) as Hc by (by apply Hready).
      apply list_elem_of_lookup_2 in Hi. apply Hr in Hi. congruence.
Qed.

(** ** setContainerDirty and the failed dispatch *)

Lemma sweep_dirty_marked id cs cs' t :
  sweep (dirty_ok id) dirty_ko cs cs' t None → cs' = marked id <$> cs.
Proof.
  remember None as e eqn:He.
  induction 1 as [|c c' t cs cs' ts e [-> _] _ IH|]; [done| |done].
  simpl. f_equal. by apply IH.
Qed.

Lemma setContainerDirty_marked id st :
  ∃ st', setContainerDirty id st = Val tt st' ∧
    Containers st' = marked id <$> Containers st ∧ calls st' = calls st ∧
    Config st' = Config st ∧ ContainerNo st' = ContainerNo st.
Proof.
  destruct (setContainerDirty_sweep id st) as (st' & t & Hrun & Hsw & Hcalls & ? & ?).
  exists st'. split_and!; try done; [by eapply sweep_dirty_marked|].
  assert (t = []) as ->; [|by rewrite Hcalls, app_nil_r].
  clear -Hsw. remember None as e eqn:He.
  induction Hsw as [|c c' t cs cs' ts e [_ ->] _ IH|]; [done| |done].
  by apply IH.
Qed.



(** ** cleanupContainers *)

Lemma cleanup_from_calls cs st :
  ∃ e st' done rest t,
    cleanup_from cs st = Val e st' ∧ Containers st' = Containers st ∧
    Config st' = Config st ∧ ContainerNo st' = ContainerNo st ∧
    cs = done ++ rest ∧
    calls st' = calls st ++ concat (kill_remove <$> done) ++ t ∧
    match e with
    | None => rest = [] ∧ t = []
    | Some err => ∃ c suf, rest = c :: suf ∧ cleanup_failed c err t
    end.
Proof.
  revert st. induction cs as [|c cs IH]; intros st.
  { exists None, st, [], [], []. simpl. by rewrite app_nil_r. }
  assert (∃ ek st1,
    (if Started c then KillContainer (Id c) else mret None) st = Val ek st1 ∧
    Containers st1 = Containers st ∧ Config st1 = Config st ∧
    ContainerNo st1 = ContainerNo st ∧
    match ek with
    | None => calls st1 = calls st ++ kill_calls c
    | Some err => Started c = true ∧ calls st1 = calls st ++ [KillCall (Id c) (Some err)]
    end) as (ek & st1 & Hkill & Hcs1 & Hconf1 & Hno1 & Hek).
  { unfold kill_calls. destruct (Started c); [|by exists None, st; rewrite app_nil_r].
    unfold KillContainer, wrapped.
    destruct (cli_ContainerKill (Id c) (world st)) as [[e|] w1];
      by eexists _, _. }
  assert (cleanup_from (c :: cs) st =
    match ek with
    | Some err => Val (Some err) st1
    | None =>
        match RemoveContainer (Id c) st1 with
        | Val (Some err) st2 => Val (Some err) st2
        | Val None st2 => cleanup_from cs st2
        | Panic msg st2 => Panic msg st2
        end
    end) as Hstep.
  { simpl. run. revert Hkill. destruct (Started c); intros Hkill.
    - rewrite Hkill. destruct ek; [done|].
      by destruct (RemoveContainer (Id c) st1) as [[?|] ?|].
    - simplify_eq/=. by destruct (RemoveContainer (Id c) st1) as [[?|] ?|]. }
  destruct ek as [err|].
  { destruct Hek as [Hs Hcalls].
    exists (Some err), st1, [], (c :: cs), [KillCall (Id c) (Some err)].
    split_and!; try done. exists c, cs. split; [done|]. by left. }
  revert Hstep. unfold RemoveContainer, wrapped.
  destruct (cli_ContainerRemove (Id c) (world st1)) as [[e|] w2]; simpl; intros Hstep.
  - eexists (Some _), _, [], (c :: cs), _. simpl.
    split_and!; [exact Hstep|try done..].
    + simpl. by rewrite Hek, <- app_assoc.
    + exists c, cs. split; [done|]. by right.
  - match type of Hstep with context [cleanup_from cs ?s] =>
      destruct (IH s) as (e & st' & done & rest & t & Hrun & ? & ? & ? & -> & Hcalls & He)
    end.
    simpl in *. exists e, st', (c :: done), rest, t.
    split_and!; try congruence; [done|].
    rewrite Hcalls, Hek. simpl. unfold kill_remove at 2.
    by rewrite <- !app_assoc.
Qed.

(** C9: [cleanupContainers] goes through the pool in order.  For each entry
    [done] it has passed it has killed the entry if it was started (and only
    then) and has then removed it.  When it returns an error, the entry [c]
    at which it stopped is the one whose kill or whose removal failed, and no
    call was made for the entries [suf] after it.  On a pool of a started and
    a stopped entry the calls are therefore: the kill of the first, its
    removal, and the removal of the second, cut after the first call that
    failed. *)
Theorem cleanupContainers_kills_started_then_removes st :
  ∃ e st' done rest t new,
    cleanupContainers st = Val e st' ∧ Containers st' = Containers st ∧
    Containers st = done ++ rest ∧
    new = concat (kill_remove <$> done) ++ t ∧
    calls st' = calls st ++ new ∧
    match e with
    | None => rest = [] ∧ t = []
    | Some err => ∃ c suf, rest = c :: suf ∧ cleanup_failed c err t
    end ∧
    (∀ c1 c2, Containers st = [c1; c2] → Started c1 = true → Started c2 = false →
       match e with
       | None =>
           new = [KillCall (Id c1) None; RemoveCall (Id c1) None;
                  RemoveCall (Id c2) None]
       | Some err =>
           new = [KillCall (Id c1) (Some err)] ∨
           new = [KillCall (Id c1) None; RemoveCall (Id c1) (Some err)] ∨
           new = [KillCall (Id c1) None; RemoveCall (Id c1) None;
                  RemoveCall (Id c2) (Some err)]
       end).
Proof.
  destruct (cleanup_from_calls (Containers st) st)
    as (e & st' & done & rest & t & Hrun & Hcs & _ & _ & Hsplit & Hcalls & He).
  exists e, st', done, rest, t, (concat (kill_remove <$> done) ++ t).
  split_and!; try done.
  intros c1 c2 Hpool Hs1 Hs2. rewrite Hpool in Hsplit.
  assert (kill_remove c1 = [KillCall (Id c1) None; RemoveCall (Id c1) None]) as Hkr1.
  { unfold kill_remove, kill_calls. by rewrite Hs1. }
  assert (kill_remove c2 = [RemoveCall (Id c2) None]) as Hkr2.
  { unfold kill_remove, kill_calls. by rewrite Hs2. }
  destruct e as [err|].
  - destruct He as (c & suf & -> & Hfail).
    destruct done as [|d1 [|d2 [|d3 done]]]; simplify_eq/=.
    + destruct Hfail as [[_ ->]| ->]; [by left|].
      right; left. unfold kill_calls. by rewrite Hs1.
    + destruct Hfail as [[? _]| ->]; [congruence|].
      right; right. rewrite Hkr1. unfold kill_calls. by rewrite Hs2.
  - destruct He as [-> ->]. rewrite app_nil_r in Hsplit. subst done.
    simpl. by rewrite Hkr1, Hkr2.
Qed.

(** ** createNewContainer and the creation loop of Init *)

Lemma wrap_int_small n : min_int ≤ n ≤ max_int → wrap_int n = n.
Proof.
  unfold wrap_int, min_int, max_int. intros Hn.
  rewrite Z.mod_small; lia.
Qed.

Lemma fmt_d_inj n m : 0 < n → 0 < m → fmt_d n = fmt_d m → n = m.
Proof.
  unfold fmt_d. intros Hn Hm Heq.
  assert (∀ k, 0 < k →
    NilZero.int_of_string (NilZero.string_of_int (Z.to_int k)) = Some (Z.to_int k))
    as Hparse.
  { intros k Hk. apply NilZero.isi; destruct k as [|p|p]; try done; simpl;
      intros [= Hp]; by apply DecimalPos.Unsigned.to_uint_nonnil in Hp. }
  apply (f_equal NilZero.int_of_string) in Heq.
  rewrite !Hparse in Heq by done. injection Heq as Heq.
  apply (f_equal Z.of_int) in Heq. by rewrite !DecimalZ.of_to in Heq.
Qed.

Lemma createNewContainer_spec st :
  let no := wrap_int (ContainerNo st + 1) in
  let name := name_of (Config st) no in
  ∃ e st' r,
    createNewContainer st = Val e st' ∧
    ContainerNo st' = no ∧ Config st' = Config st ∧
    calls st' =
      calls st ++
      [CreateCall name
         (ContainerImage (Config st) +:+ ":" +:+ ContainerImageTag (Config st))
         (Deployment (Config st)) r] ∧
    match r with
    | Ok id =>
        e = None ∧
        Containers st' =
          Containers st ++
          [{| Name := name; Id := id; Started := false; Dirty := false; IPAddr := "" |}]
    | Err err => e = Some err ∧ Containers st' = Containers st
    end.
Proof.
  intros no name. unfold createNewContainer, containerImageName, CreateContainer.
  run. simpl.
  destruct (cli_ContainerCreate _ _ _ (world st)) as [[id|err] w1]; simpl;
    by eexists _, _, _.
Qed.

Lemma create_loop_spec (n : nat) st :
  0 ≤ ContainerNo st → ContainerNo st + Z.of_nat n ≤ max_int →
  ∃ e st' new t,
    create_loop n st = Val e st' ∧
    Containers st' = Containers st ++ new ∧ calls st' = calls st ++ t ∧
    Config st' = Config st ∧
    (∀ j c, new !! j = Some c →
       Name c = name_of (Config st) (ContainerNo st + Z.of_nat j + 1) ∧ fresh c) ∧
    Id <$> new = created_ids t ∧
    match e with
    | None =>
        length new = n ∧ ContainerNo st' = ContainerNo st + Z.of_nat n
    | Some err =>
        (length new < n)%nat ∧
        ContainerNo st' = ContainerNo st + Z.of_nat (length new) + 1 ∧
        ∃ name image deployment,
          last t = Some (CreateCall name image deployment (Err err))
    end.
Proof.
  revert st. induction n as [|n IH]; intros st Hlo Hhi.
  { exists None, st, [], []. rewrite !app_nil_r. split_and!; try done. lia. }
  destruct (createNewContainer_spec st) as (e1 & st1 & r & Hrun & Hno & Hconf & Hcalls & Hr).
  assert (wrap_int (ContainerNo st + 1) = ContainerNo st + 1) as Hw.
  { apply wrap_int_small. unfold min_int, max_int in *. lia. }
  rewrite Hw in Hno, Hcalls, Hr.
  simpl. run. rewrite Hrun. destruct r as [id|err].
  - destruct Hr as [-> Hcs].
    destruct (IH st1) as (e & st' & new & t & -> & Hcs' & Hcalls' & Hconf' & Hnames & Hids & He);
      [lia..|].
    eexists e, st', (_ :: new), (_ :: t). split_and!.
    + done.
    + by rewrite Hcs', Hcs, <- app_assoc.
    + by rewrite Hcalls', Hcalls, <- app_assoc.
    + congruence.
    + intros [|j] c; simpl.
      * intros [= <-]. simpl. by rewrite Z.add_0_r.
      * intros Hj. apply Hnames in Hj as [-> ?]. split; [|done].
        rewrite Hconf, Hno. f_equal. lia.
    + rewrite fmap_cons, Hids. done.
    + rewrite Hno in He. destruct e as [err|].
      * destruct He as (? & -> & name & image & deployment & Hlast).
        split_and!; [simpl; lia..|].
        exists name, image, deployment.
        destruct t; [done|]. by rewrite last_cons, Hlast.
      * destruct He as [<- ->]. split; [done|]. lia.
  - destruct Hr as [-> Hcs].
    eexists (Some err), st1, [], [CreateCall _ _ _ (Err err)].
    rewrite app_nil_r. split_and!; try done.
    + simpl. lia.
    + simpl. lia.
    + by eexists _, _, _.
Qed.

(** C5: on a controller as [NewReqController] makes it (an empty pool, the
    counter at zero), the creation loop of [Init] returns.  The entry at
    index [i] of the pool it leaves has the name [<deployment>-<i+1>], is not
    started, not dirty and has no address; the names are pairwise distinct;
    the ids are, in order, those the Docker daemon has handed out, taken as
    they come: they are pairwise distinct exactly when the daemon has handed
    out no id twice.  Without an error the pool has exactly
    [ContainerAmount] entries (none when that is not positive) and the
    counter equals their number.  With an error the loop has stopped at the
    first creation that failed (the last call logged): the pool keeps the
    entries created before it, fewer than [ContainerAmount], and the counter
    has been incremented for the failed creation as well. *)
Theorem provision_names_entries conf w st0 :
  NewReqController conf w = Ok st0 →
  ContainerAmount conf ≤ max_int →
  ∃ e st',
    provision st0 = Val e st' ∧
    (∀ i c, Containers st' !! i = Some c →
       Name c = Deployment conf +:+ "-" +:+ fmt_d (Z.of_nat i + 1) ∧
       Started c = false ∧ Dirty c = false ∧ IPAddr c = "") ∧
    NoDup (Name <$> Containers st') ∧
    Id <$> Containers st' = created_ids (calls st') ∧
    (NoDup (Id <$> Containers st') ↔ NoDup (created_ids (calls st'))) ∧
    match e with
    | None =>
        Z.of_nat (length (Containers st')) = Z.max 0 (ContainerAmount conf) ∧
        ContainerNo st' = Z.of_nat (length (Containers st'))
    | Some err =>
        Z.of_nat (length (Containers st')) < ContainerAmount conf ∧
        ContainerNo st' = Z.of_nat (length (Containers st')) + 1 ∧
        ∃ name image deployment,
          last (calls st') = Some (CreateCall name image deployment (Err err))
    end.
Proof.
  intros Hnew Hmax. unfold NewReqController in Hnew.
  destruct (negb _); [done|]. destruct (cli_NewClient w); [done|].
  injection Hnew as <-. unfold provision. run. simpl.
  match goal with |- context [create_loop ?n ?s] =>
    destruct (create_loop_spec n s)
      as (e & st' & new & t & Hrun & Hcs & Hcalls & Hconf & Hnames & Hids & He)
  end; [unfold max_int in *; simpl; lia..|].
  simpl in *. subst new t.
  assert (∀ i c, Containers st' !! i = Some c →
            Name c = Deployment conf +:+ "-" +:+ fmt_d (Z.of_nat i + 1)) as Hname.
  { intros i c Hi. by apply Hnames in Hi as [-> _]. }
  exists e, st'. split_and!; [done| | |done| |].
  - intros i c Hi. split; [by apply Hname|]. by apply Hnames in Hi as [_ ?].
  - apply NoDup_alt. intros i j name.
    rewrite !list_lookup_fmap.
    destruct (Containers st' !! i) as [ci|] eqn:Hi; [|done].
    destruct (Containers st' !! j) as [cj|] eqn:Hj; [|done].
    simpl. intros [= <-] [= Heq].
    rewrite (Hname _ _ Hi), (Hname _ _ Hj) in Heq.
    do 2 apply String.app_inj in Heq.
    apply fmt_d_inj in Heq; lia.
  - by rewrite Hids.
  - destruct e as [err|].
    + destruct He as (? & ? & ?). split_and!; [lia..|done].
    + destruct He as [-> ->]. split; lia.
Qed.

(** ** The handler *)

Lemma wakeUp_dynamic_empty st :
  Type_ (Config st) = DynamicController → Containers st = [] →
  wakeUp st = Panic "index out of range" st.
Proof.
  intros Hdyn Hnil. unfold wakeUp. run. rewrite Hdyn. simpl.
  unfold index. simpl. by rewrite Hnil.
Qed.

Lemma wakeUp_returns st :
  Containers st ≠ [] ∨ Type_ (Config st) ≠ DynamicController →
  ∃ e st', wakeUp st = Val e st'.
Proof.
  intros Hok. unfold wakeUp. run.
  destruct (String.eqb_spec (Type_ (Config st)) DynamicController) as [Hdyn|Hdyn].
  - destruct Hok as [Hne|]; [|done].
    destruct (Containers st) as [|c cs] eqn:Hcs; [done|].
    unfold index. simpl. rewrite Hcs. simpl.
    destruct (Started c); simpl; [by eexists _, _|].
    destruct (startContainers_sweep st) as (e & st' & t & -> & _). by exists e, st'.
  - by eexists _, _.
Qed.

Lemma ServeHTTP_after_wakeUp w r st e st1 :
  IntnInRange → wakeUp st = Val e st1 →
  ∃ w' st', ServeHTTP w r st = Val w' st'.
Proof.
  intros Hrand Hwake. unfold ServeHTTP. run. rewrite Hwake.
  destruct e as [err|]; [by eexists _, _|].
  destruct (getRandomContainer_spec st1 Hrand) as (sel & st2 & -> & _).
  destruct sel as [chosen|msg]; [|by eexists _, _].
  destruct (http_NewRequest _ _ _) as [proxyReq|msg]; [|by eexists _, _].
  unfold client_Do.
  destruct (http_Do _ (world st2)) as [[res|msg] w3]; [by eexists _, _|].
  destruct (setContainerDirty_marked (Id chosen) (with_world w3 st2)) as (st3 & -> & _).
  by eexists _, _.
Qed.

(** C3: in dynamic mode the handler reads [Containers[0]] first.  On an
    empty pool every request ends in an index-out-of-range panic, with
    nothing written to the response; such a pool is what [Init] leaves, without an
    error, when [ContainerAmount] is not positive.  On a pool that is not
    empty the handler does not panic.  (In static mode the entry is not
    read, and the empty pool is answered with a server error.) *)
Theorem ServeHTTP_dynamic_empty_pool_panics w r st :
  Type_ (Config st) = DynamicController →
  (Containers st = [] → ServeHTTP w r st = Panic "index out of range" st) ∧
  (IntnInRange → Containers st ≠ [] → panics (ServeHTTP w r st) = false) ∧
  (IntnInRange → (panics (ServeHTTP w r st) = true ↔ Containers st = [])) ∧
  (∀ conf w0 st0,
     NewReqController conf w0 = Ok st0 → Type_ conf = DynamicController →
     ContainerAmount conf ≤ 0 →
     Init st0 = Val None st0 ∧ Containers st0 = [] ∧
     ServeHTTP w r st0 = Panic "index out of range" st0) ∧
  (∀ st_s, Type_ (Config st_s) = StaticController → Containers st_s = [] →
     ServeHTTP w r st_s = Val (WriteHeader StatusInternalServerError w) st_s).
Proof.
  intros Hdyn.
  assert (∀ st', Type_ (Config st') = DynamicController → Containers st' = [] →
            ServeHTTP w r st' = Panic "index out of range" st') as Hpanic.
  { intros st' Hd Hnil. unfold ServeHTTP. run. by rewrite wakeUp_dynamic_empty. }
  assert (IntnInRange → Containers st ≠ [] → panics (ServeHTTP w r st) = false) as Hsafe.
  { intros Hrand Hne. destruct (wakeUp_returns st) as (e & st1 & Hwake); [by left|].
    by destruct (ServeHTTP_after_wakeUp w r st e st1 Hrand Hwake) as (w' & st' & ->). }
  split_and!.
  - by apply Hpanic.
  - done.
  - intros Hrand. split.
    + intros Hp. destruct (Containers st) as [|c cs] eqn:Hcs; [done|].
      by rewrite Hsafe in Hp.
    + intros Hnil. by rewrite Hpanic.
  - intros conf w0 st0 Hnew Hd Hamount. unfold NewReqController in Hnew.
    destruct (negb _); [done|]. destruct (cli_NewClient w0); [done|].
    injection Hnew as <-. split_and!; [|done|by apply Hpanic].
    unfold Init, provision. run. simpl.
    rewrite Z2Nat.nonpos by done. simpl. by rewrite Hd.
  - intros st_s Hstatic Hnil.
    assert (wakeUp st_s = Val None st_s) as Hwake.
    { unfold wakeUp. run. by rewrite Hstatic. }
    assert (getRandomContainer st_s =
              Val (Err "No configured containers to choose from") st_s) as Hsel.
    { unfold getRandomContainer. run. by rewrite Hnil. }
    unfold ServeHTTP. run. by rewrite Hwake, Hsel.
Qed.

(** ** What no operation undoes *)

Lemma entry_le_refl c : entry_le c c.
Proof. by unfold entry_le. Qed.

Lemma entry_le_trans c1 c2 c3 : entry_le c1 c2 → entry_le c2 c3 → entry_le c1 c3.
Proof.
  unfold entry_le. intros (? & ? & ? & ?) (? & ? & ? & ?).
  split_and!; [congruence..|auto|auto].
Qed.

Lemma pool_le_refl cs : pool_le cs cs.
Proof.
  exists cs, []. rewrite app_nil_r. split_and!; [done| |done].
  apply Forall_Forall2_diag, Forall_forall. intros; apply entry_le_refl.
Qed.

Lemma pool_le_same cs cs' : cs' = cs → pool_le cs cs'.
Proof. intros ->. apply pool_le_refl. Qed.

Lemma pool_le_trans cs1 cs2 cs3 : pool_le cs1 cs2 → pool_le cs2 cs3 → pool_le cs1 cs3.
Proof.
  intros (a & n1 & -> & Ha & Hn1) (b & n2 & -> & Hb & Hn2).
  apply Forall2_app_inv_l in Hb as (b1 & b2 & Hb1 & Hb2 & ->).
  exists b1, (b2 ++ n2). split_and!.
  - by rewrite app_assoc.
  - clear -Ha Hb1. revert b1 Hb1.
    induction Ha; intros b1 Hb1; inversion_clear Hb1; constructor;
      eauto using entry_le_trans.
  - apply Forall_app. split; [|done].
    clear -Hn1 Hb2.
    induction Hb2 as [|c c' ?? Hle]; inversion_clear Hn1; constructor; [|auto].
    destruct Hle as (_ & _ & _ & Hinv). auto.
Qed.

Lemma fresh_address_inv c : fresh c → address_inv c.
Proof. by intros (_ & _ & ?) _. Qed.

Lemma keeps_ret {A} (a : A) : keeps (World:=World) (mret a).
Proof. intros st. apply pool_le_refl. Qed.

Lemma keeps_gets {A} (f : State World → A) : keeps (gets f).
Proof. intros st. apply pool_le_refl. Qed.

Lemma keeps_bind {A B} (m : M World A) (k : A → M World B) :
  keeps m → (∀ a, keeps (k a)) → keeps (m ≫= k).
Proof.
  intros Hm Hk st. specialize (Hm st). run.
  destruct (m st) as [a st1|msg st1]; simpl in *; [|done].
  eapply pool_le_trans; [done|]. apply Hk.
Qed.

Lemma keeps_same {A} (m : M World A) :
  (∀ st, Containers (final (m st)) = Containers st) → keeps m.
Proof. intros Hm st. by apply pool_le_same. Qed.

Lemma sweep_pool_le ok ko cs cs' t e :
  (∀ c c' t, ok c c' t → entry_le c c') → sweep ok ko cs cs' t e → pool_le cs cs'.
Proof.
  intros Hok Hsw. exists cs', []. rewrite app_nil_r. split_and!; [done| |done].
  eapply sweep_Forall2; [apply entry_le_refl|done..].
Qed.

Lemma start_ok_entry_le c c' t : start_ok c c' t → entry_le c c'.
Proof.
  unfold start_ok. destruct (Started c) eqn:Hs.
  - intros [-> _]. apply entry_le_refl.
  - intros (ip & -> & _). by split_and!.
Qed.

Lemma stop_ok_entry_le hard c c' t : stop_ok hard c c' t → entry_le c c'.
Proof.
  unfold stop_ok. destruct (Started c) eqn:Hs.
  - intros [-> _]. by split_and!.
  - intros [-> _]. apply entry_le_refl.
Qed.

Lemma dirty_ok_entry_le id c c' t : dirty_ok id c c' t → entry_le c c'.
Proof.
  unfold dirty_ok. intros [-> _]. destruct (String.eqb (Id c) id); [|apply entry_le_refl].
  by split_and!.
Qed.

Lemma keeps_startContainers : keeps startContainers.
Proof.
  intros st. destruct (startContainers_sweep st) as (e & st' & t & -> & Hsw & _).
  eapply sweep_pool_le; [apply start_ok_entry_le|done].
Qed.

Lemma keeps_stopContainers hard : keeps (stopContainers hard).
Proof.
  intros st. destruct (stopContainers_sweep hard st) as (e & st' & t & -> & Hsw & _).
  eapply sweep_pool_le; [apply stop_ok_entry_le|done].
Qed.

Lemma keeps_setContainerDirty id : keeps (World:=World) (setContainerDirty id).
Proof.
  intros st. destruct (setContainerDirty_sweep id st) as (st' & t & -> & Hsw & _).
  eapply sweep_pool_le; [apply dirty_ok_entry_le|done].
Qed.

Lemma keeps_cleanupContainers : keeps cleanupContainers.
Proof.
  apply keeps_same. intros st. unfold cleanupContainers. run.
  by destruct (cleanup_from_calls (Containers st) st) as (e & st' & ? & ? & ? & -> & ? & _).
Qed.

Lemma keeps_createNewContainer : keeps createNewContainer.
Proof.
  intros st. destruct (createNewContainer_spec st) as (e & st' & r & -> & _ & _ & _ & Hr).
  simpl. destruct r as [id|err]; destruct Hr as [_ ->]; [|apply pool_le_refl].
  eexists (Containers st), [_]. split_and!; [done| |].
  - apply Forall_Forall2_diag, Forall_forall. intros; apply entry_le_refl.
  - by repeat constructor.
Qed.

Lemma keeps_create_loop n : keeps (create_loop n).
Proof.
  induction n as [|n IH]; simpl; [apply keeps_ret|].
  apply keeps_bind; [apply keeps_createNewContainer|].
  intros [err|]; [apply keeps_ret|done].
Qed.

Lemma keeps_provision : keeps provision.
Proof. apply keeps_bind; [apply keeps_gets|]. intros n. apply keeps_create_loop. Qed.

Lemma probe_pool left amount st :
  Containers (final (probe left amount st)) = Containers st.
Proof.
  revert st. induction left as [|left IH]; intros st; [done|].
  simpl. run. unfold Intn. destruct (bool_decide (0 < amount)); [|done].
  destruct (rand_Intn amount (world st)) as [random w].
  unfold index. simpl. destruct (bool_decide (0 ≤ random)); [|done].
  destruct (Containers st !! Z.to_nat random) as [c|]; [|done].
  destruct (ready c); [done|]. by rewrite IH.
Qed.

Lemma getRandomContainer_pool st :
  Containers (final (getRandomContainer st)) = Containers st.
Proof.
  unfold getRandomContainer. run. destruct (_ =? 0); [done|].
  pose proof (probe_pool (Z.to_nat (ContainerAmount (Config st)))
                (Z.of_nat (length (Containers st))) st) as Hp.
  destruct (probe _ _ st) as [[c|] st1|msg st1]; simpl in *; [done| |done].
  by destruct (find ready (Containers st1)).
Qed.

Lemma keeps_getRandomContainer : keeps getRandomContainer.
Proof. apply keeps_same, getRandomContainer_pool. Qed.

Lemma keeps_Init : keeps Init.
Proof.
  apply keeps_bind; [apply keeps_provision|].
  intros [err|]; [apply keeps_ret|].
  apply keeps_bind; [apply keeps_gets|].
  intros [|]; [apply keeps_startContainers|apply keeps_ret].
Qed.

Lemma keeps_Close : keeps Close.
Proof. apply keeps_bind; [apply keeps_cleanupContainers|]. intros e. apply keeps_ret. Qed.

Lemma keeps_index i : keeps (World:=World) (index i).
Proof.
  apply keeps_same. intros st. unfold index.
  destruct (bool_decide _); [|done]. by destruct (Containers st !! _).
Qed.

Lemma keeps_wakeUp : keeps wakeUp.
Proof.
  apply keeps_bind; [apply keeps_gets|]. intros dynamic.
  apply keeps_bind.
  - destruct dynamic; [|apply keeps_ret].
    apply keeps_bind; [apply keeps_index|]. intros c. apply keeps_ret.
  - intros [|]; [apply keeps_startContainers|apply keeps_ret].
Qed.

Lemma keeps_ServeHTTP w r : keeps (ServeHTTP w r).
Proof.
  apply keeps_bind; [apply keeps_wakeUp|].
  intros [err|]; [apply keeps_ret|].
  apply keeps_bind; [apply keeps_getRandomContainer|].
  intros [chosen|msg]; [|apply keeps_ret].
  apply keeps_bind; [apply keeps_gets|]. intros port.
  destruct (http_NewRequest _ _ _) as [proxyReq|msg]; [|apply keeps_ret].
  apply keeps_bind.
  { apply keeps_same. intros st. unfold client_Do. by destruct (http_Do _ _). }
  intros [res|msg].
  - apply keeps_bind; [apply keeps_gets|]. intros src. apply keeps_ret.
  - apply keeps_bind; [apply keeps_setContainerDirty|]. intros _. apply keeps_ret.
Qed.

Lemma exec_pool_le o st : pool_le (Containers st) (Containers (exec o st)).
Proof.
  destruct o; simpl.
  - apply keeps_createNewContainer.
  - apply keeps_provision.
  - apply keeps_startContainers.
  - apply keeps_stopContainers.
  - apply keeps_cleanupContainers.
  - apply keeps_getRandomContainer.
  - apply keeps_setContainerDirty.
  - apply keeps_Init.
  - apply keeps_Close.
  - apply keeps_ServeHTTP.
Qed.

Lemma execs_pool_le os st : pool_le (Containers st) (Containers (execs os st)).
Proof.
  revert st. induction os as [|o os IH]; intros st; [apply pool_le_refl|].
  simpl. eapply pool_le_trans; [apply exec_pool_le|apply IH].
Qed.

Lemma pool_le_lookup cs cs' (i : nat) c :
  pool_le cs cs' → cs !! i = Some c → ∃ c', cs' !! i = Some c' ∧ entry_le c c'.
Proof.
  intros (cs1 & new & -> & Hle & _) Hi.
  destruct (Forall2_lookup_l _ _ _ _ _ Hle Hi) as (c' & Hi' & ?).
  exists c'. split; [|done]. by apply lookup_app_l_Some.
Qed.

Lemma pool_le_address_inv cs cs' :
  pool_le cs cs' → Forall address_inv cs → Forall address_inv cs'.
Proof.
  intros (cs1 & new & -> & Hle & Hnew) Hinv. apply Forall_app. split; [|done].
  clear -Hle Hinv. induction Hle as [|c c' ?? (_ & _ & _ & Hc)];
    inversion_clear Hinv; constructor; auto.
Qed.

(** C7: an entry that is dirty stays dirty through every operation of the
    controller, and so through every sequence of them (stopping and starting
    again included): it keeps its place in the pool, its name and its id, its
    dirty flag is still set, and it is not ready. *)
Theorem dirty_flag_is_one_way (os : list Op) st (i : nat) c :
  Containers st !! i = Some c → Dirty c = true →
  (∃ c', Containers (execs os st) !! i = Some c' ∧
         Name c' = Name c ∧ Id c' = Id c ∧ Dirty c' = true ∧ ready c' = false) ∧
  (∀ o, ∃ c', Containers (exec o st) !! i = Some c' ∧
         Name c' = Name c ∧ Id c' = Id c ∧ Dirty c' = true ∧ ready c' = false) ∧
  (∀ hard, ∃ c', Containers (execs [OpStopAll hard; OpStartAll] st) !! i = Some c' ∧
         Id c' = Id c ∧ Dirty c' = true ∧ ready c' = false).
Proof.
  intros Hi Hd.
  assert (∀ os, ∃ c', Containers (execs os st) !! i = Some c' ∧
            Name c' = Name c ∧ Id c' = Id c ∧ Dirty c' = true ∧ ready c' = false)
    as Hall.
  { intros os'.
    destruct (pool_le_lookup _ _ i c (execs_pool_le os' st) Hi)
      as (c' & Hi' & Hname & Hid & Hdirty & _).
    exists c'. split_and!; [done..|by apply Hdirty|].
    unfold ready. by rewrite (Hdirty Hd). }
  split_and!.
  - apply Hall.
  - intros o. apply (Hall [o]).
  - intros hard. destruct (Hall [OpStopAll hard; OpStartAll]) as (c' & ? & ? & ? & ? & ?).
    by exists c'.
Qed.

(** C8: an entry that is not started has no address.  The entry that
    [createNewContainer] appends is not started and has no address; every
    operation, and so every sequence of operations, on a pool whose entries
    have the invariant leaves a pool whose entries have it; hence it holds of
    every pool reached from a new controller.  Entry by entry:
    [startContainers] leaves an entry as it is or started (with the address
    it has read), [stopContainers] leaves it as it is or not started and
    without an address, [setContainerDirty] changes neither field, and a
    selection does not write the pool. *)
Theorem address_invariant_preserved (os : list Op) st :
  Forall address_inv (Containers st) →
  Forall address_inv (Containers (execs os st)) ∧
  (∀ o, Forall address_inv (Containers (exec o st))) ∧
  (∀ conf w st0, NewReqController conf w = Ok st0 →
     ∀ os0, Forall address_inv (Containers (execs os0 st0))) ∧
  (Containers (final (createNewContainer st)) = Containers st ∨
   ∃ c, Containers (final (createNewContainer st)) = Containers st ++ [c] ∧
        Started c = false ∧ IPAddr c = "") ∧
  Forall2 (λ c c', c' = c ∨ Started c = false ∧ Started c' = true)
    (Containers st) (Containers (final (startContainers st))) ∧
  (∀ hard,
     Forall2 (λ c c', c' = c ∨
                      Started c = true ∧ Started c' = false ∧ IPAddr c' = "")
       (Containers st) (Containers (final (stopContainers hard st)))) ∧
  (∀ id,
     Forall2 (λ c c', Started c' = Started c ∧ IPAddr c' = IPAddr c)
       (Containers st) (Containers (final (setContainerDirty id st)))) ∧
  Containers (final (getRandomContainer st)) = Containers st.
Proof.
  intros Hinv. split_and!.
  - eapply pool_le_address_inv; [apply execs_pool_le|done].
  - intros o. eapply pool_le_address_inv; [apply exec_pool_le|done].
  - intros conf w st0 Hnew os0. unfold NewReqController in Hnew.
    destruct (negb _); [done|]. destruct (cli_NewClient w); [done|].
    injection Hnew as <-.
    eapply pool_le_address_inv; [apply execs_pool_le|]. simpl. constructor.
  - destruct (createNewContainer_spec st) as (e & st' & r & -> & _ & _ & _ & Hr).
    simpl. destruct r as [id|err]; destruct Hr as [_ ->]; [|by left].
    right. by eexists.
  - destruct (startContainers_sweep st) as (e & st' & t & -> & Hsw & _). simpl.
    eapply sweep_Forall2; [by left| |done].
    intros c c' t'. unfold start_ok. destruct (Started c).
    + intros [-> _]. by left.
    + intros (ip & -> & _). by right.
  - intros hard.
    destruct (stopContainers_sweep hard st) as (e & st' & t & -> & Hsw & _). simpl.
    eapply sweep_Forall2; [by left| |done].
    intros c c' t'. unfold stop_ok. destruct (Started c).
    + intros [-> _]. by right.
    + intros [-> _]. by left.
  - intros id.
    destruct (setContainerDirty_sweep id st) as (st' & t & -> & Hsw & _). simpl.
    eapply sweep_Forall2; [done| |done].
    intros c c' t'. unfold dirty_ok. intros [-> _].
    by destruct (String.eqb (Id c) id).
  - unfold getRandomContainer. run. destruct (_ =? 0); [done|].
    pose proof (probe_pool (Z.to_nat (ContainerAmount (Config st)))
                  (Z.of_nat (length (Containers st))) st) as Hp.
    destruct (probe _ _ st) as [[c|] st1|msg st1]; simpl in *; [done| |done].
    by destruct (find ready (Containers st1)).
Qed.

(** ** copyHeader and the answer that is passed on *)

Lemma Header_Add_values k v (h : Header) K :
  values K (Header_Add k v h) =
  if decide (CanonicalMIMEHeaderKey k = K) then values K h ++ [v] else values K h.
Proof.
  unfold values, Header_Add. case_decide as Hk.
  - subst K. by rewrite lookup_insert_eq.
  - by rewrite lookup_insert_ne.
Qed.

Lemma foldl_Header_Add_values k vv (h : Header) K :
  values K (foldl (λ dst v, Header_Add k v dst) h vv) =
  values K h ++ (if decide (CanonicalMIMEHeaderKey k = K) then vv else []).
Proof.
  revert h. induction vv as [|v vv IH]; intros h; simpl.
  { case_decide; by rewrite app_nil_r. }
  rewrite IH, Header_Add_values. case_decide; [|done]. by rewrite <- app_assoc.
Qed.

Lemma copyHeader_values (dst : Header) src K :
  values K (copyHeader dst src) = values K dst ++ added K src.
Proof.
  unfold copyHeader, added. revert dst.
  induction src as [|[k vv] src IH]; intros dst; simpl; [by rewrite app_nil_r|].
  by rewrite IH, foldl_Header_Add_values, <- app_assoc.
Qed.

Lemma occurrences_app v l1 l2 :
  occurrences v (l1 ++ l2) = (occurrences v l1 + occurrences v l2)%nat.
Proof. unfold occurrences. by rewrite filter_app, length_app. Qed.

Lemma occurrences_added v k vv src :
  (k, vv) ∈ src →
  (occurrences v vv ≤ occurrences v (added (CanonicalMIMEHeaderKey k) src))%nat.
Proof.
  unfold added. induction src as [|[k' vv'] src IH]; [by intros ?%elem_of_nil|].
  intros [[= <- <-]|Hin]%elem_of_cons; simpl; rewrite occurrences_app.
  - rewrite decide_True by done. lia.
  - apply IH in Hin. lia.
Qed.

(** C10: when the dispatch succeeds (the pool is awake, a container has been
    selected, the proxied request built, and [client.Do] answers with the
    response [res]), the handler returns, and what it has sent is the status
    code of [res] with the header map it had, to which every value of the
    header of [res] has been added: under each key the values that were
    there come first, unchanged, followed by the values that [res] has under
    the keys with that canonical form.  So a value occurs under the canonical
    form of its key at least as many times as under the key in [res], and,
    for a key in canonical form (as the keys of a parsed response are), the
    pair of key and value occurs at least as many times as in [res].  The
    body of [res] follows. *)
Theorem ServeHTTP_success_copies_headers w r st st1 st2 chosen proxyReq res w3 :
  RangeVisitsAll →
  wakeUp st = Val None st1 →
  getRandomContainer st1 = Val (Ok chosen) st2 →
  http_NewRequest (req_Method r)
    (proxy_URL (req_URL r) chosen (ContainerPort (Config st2))) (req_Body r)
    = Ok proxyReq →
  http_Do (proxied r proxyReq) (world st2) = (Ok res, w3) →
  w_Wrote w = None →
  ∃ w' sent,
    ServeHTTP w r st = Val w' (with_world w3 st2) ∧
    w_Wrote w' = Some (StatusCode res, sent) ∧
    w_Body w' = w_Body w +:+ res_Body res ∧
    sent = copyHeader (w_Header w) (range_Header (res_Header res) w3) ∧
    (∀ k, values k sent =
          values k (w_Header w) ++ added k (range_Header (res_Header res) w3)) ∧
    (∀ k, values k (w_Header w) `prefix_of` values k sent) ∧
    (∀ k v, (occurrences v (values k (res_Header res)) ≤
             occurrences v (values (CanonicalMIMEHeaderKey k) sent))%nat) ∧
    (∀ k v, CanonicalMIMEHeaderKey k = k →
            (occurrences v (values k (res_Header res)) ≤
             occurrences v (values k sent))%nat).
Proof.
  intros Hrange Hwake Hsel Hnew Hdo Hw.
  set (src := range_Header (res_Header res) w3).
  assert (∀ k v, (occurrences v (values k (res_Header res)) ≤
            occurrences v (values (CanonicalMIMEHeaderKey k)
                             (copyHeader (w_Header w) src)))%nat) as Hocc.
  { intros k v. rewrite copyHeader_values, occurrences_app.
    unfold values at 1. destruct (res_Header res !! k) as [vv|] eqn:Hk; simpl.
    - assert ((k, vv) ∈ src) as Hin.
      { unfold src. rewrite (Hrange _ w3). by apply elem_of_map_to_list. }
      pose proof (occurrences_added v k vv src Hin). lia.
    - unfold occurrences. simpl. lia. }
  eexists _, (copyHeader (w_Header w) src). split_and!.
  - unfold ServeHTTP. run. rewrite Hwake, Hsel, Hnew.
    unfold client_Do. rewrite Hdo. simpl. reflexivity.
  - unfold io_Copy, WriteHeader. simpl. by rewrite Hw.
  - unfold io_Copy, WriteHeader. simpl. by rewrite Hw.
  - done.
  - intros k. apply copyHeader_values.
  - intros k. rewrite copyHeader_values. by eexists.
  - done.
  - intros k v Hk. specialize (Hocc k v). by rewrite Hk in Hocc.
Qed.

End Properties.

(** * Further properties of the controller *)

Section Further.
Context {World : Type} `{RT : Runtime World}.
Implicit Types (st : State World) (cs : list Container).

Ltac run := unfold mbind, M_bind, mret, M_ret, gets, modify in *.

Ltac call_client :=
  unfold StartContainer, ContainerDetails, StopContainer, KillContainer,
    RemoveContainer, CreateContainer, wrapped.

(** ** Which calls an operation makes *)

Lemma logs_refl P st : logs P st st.
Proof. split; [done|]. exists []. by rewrite app_nil_r. Qed.

Lemma logs_trans P st1 st2 st3 : logs P st1 st2 → logs P st2 st3 → logs P st1 st3.
Proof.
  intros [Hc1 (t1 & Ht1 & HP1)] [Hc2 (t2 & Ht2 & HP2)]. split; [congruence|].
  exists (t1 ++ t2). split; [by rewrite Ht2, Ht1, app_assoc|by apply Forall_app].
Qed.

Lemma logs_weaken (P Q : Call → bool) st st' :
  (∀ c, P c = true → Q c = true) → logs P st st' → logs Q st st'.
Proof.
  intros HPQ [Hc (t & Ht & HP)]. split; [done|]. exists t. split; [done|].
  eapply Forall_impl; [done|]. auto.
Qed.

Lemma makes_weaken {A} (P Q : Call → bool) (m : M World A) :
  (∀ c, P c = true → Q c = true) → makes P m → makes Q m.
Proof. intros HPQ Hm st. eapply logs_weaken; [done|apply Hm]. Qed.

Lemma makes_silent {A} P (m : M World A) :
  (∀ st, calls (final (m st)) = calls st ∧ Config (final (m st)) = Config st) →
  makes P m.
Proof.
  intros Hm st. destruct (Hm st) as [Hcalls Hconf]. split; [done|].
  exists []. by rewrite app_nil_r.
Qed.

Lemma makes_ret {A} P (a : A) : makes (World:=World) P (mret a).
Proof. intros st. apply logs_refl. Qed.

Lemma makes_gets {A} P (f : State World → A) : makes P (gets f).
Proof. intros st. apply logs_refl. Qed.

Lemma makes_bind {A B} P (m : M World A) (k : A → M World B) :
  makes P m → (∀ a, makes P (k a)) → makes P (m ≫= k).
Proof.
  intros Hm Hk st. specialize (Hm st). run.
  destruct (m st) as [a st1|msg st1]; simpl in *; [|done].
  eapply logs_trans; [done|]. apply Hk.
Qed.

Lemma makes_index P i : makes (World:=World) P (index i).
Proof.
  apply makes_silent. intros st. unfold index.
  destruct (bool_decide _); [|done]. by destruct (Containers st !! _).
Qed.

Lemma makes_store P i c : makes (World:=World) P (store i c).
Proof. apply makes_silent. intros st. unfold store. by destruct (bool_decide _). Qed.

Lemma makes_range_from P (body : nat → Container → M World error) n i :
  (∀ i c, makes P (body i c)) → makes P (range_from n i body).
Proof.
  intros Hbody. revert i. induction n as [|n IH]; intros i; simpl; [apply makes_ret|].
  apply makes_bind; [apply makes_index|]. intros c.
  apply makes_bind; [apply Hbody|]. intros [err|]; [apply makes_ret|apply IH].
Qed.

Lemma makes_range_Containers P (body : nat → Container → M World error) :
  (∀ i c, makes P (body i c)) → makes P (range_Containers body).
Proof.
  intros Hbody. apply makes_bind; [apply makes_gets|].
  intros n. by apply makes_range_from.
Qed.

Lemma makes_one {A} (P : Call → bool) (m : M World A) :
  (∀ st, ∃ a c w, m st = Val a (called c w st) ∧ P c = true) → makes P m.
Proof.
  intros Hm st. destruct (Hm st) as (a & c & w & -> & HP). split; [done|].
  exists [c]. split; [done|]. by constructor.
Qed.

Lemma makes_CreateContainer name image deployment :
  makes is_create (CreateContainer name image deployment).
Proof.
  apply makes_one. intros st. unfold CreateContainer.
  destruct (cli_ContainerCreate _ _ _ _) as [r w]. by eexists _, _, _.
Qed.

Lemma makes_StartContainer id : makes is_start (StartContainer id).
Proof.
  apply makes_one. intros st. unfold StartContainer.
  destruct (cli_ContainerStart _ _) as [r w]. by eexists _, _, _.
Qed.

Lemma makes_ContainerDetails id : makes is_details (ContainerDetails id).
Proof.
  apply makes_one. intros st. unfold ContainerDetails.
  destruct (cli_ContainerInspect _ _) as [r w]. by eexists _, _, _.
Qed.

Lemma makes_StopContainer id : makes is_stop (StopContainer id).
Proof.
  apply makes_one. intros st. unfold StopContainer.
  destruct (cli_ContainerStop _ _) as [r w]. by eexists _, _, _.
Qed.

Lemma makes_KillContainer id : makes is_kill (KillContainer id).
Proof.
  apply makes_one. intros st. unfold KillContainer.
  destruct (cli_ContainerKill _ _) as [r w]. by eexists _, _, _.
Qed.

Lemma makes_RemoveContainer id : makes is_remove (RemoveContainer id).
Proof.
  apply makes_one. intros st. unfold RemoveContainer.
  destruct (cli_ContainerRemove _ _) as [r w]. by eexists _, _, _.
Qed.

Lemma makes_createNewContainer : makes is_create createNewContainer.
Proof.
  apply makes_bind; [by apply makes_silent|]. intros _.
  apply makes_bind; [apply makes_gets|]. intros cName.
  apply makes_bind; [apply makes_gets|]. intros image.
  apply makes_bind; [apply makes_gets|]. intros deployment.
  apply makes_bind; [apply makes_CreateContainer|].
  intros [id|err]; [|apply makes_ret].
  apply makes_bind; [by apply makes_silent|]. intros _. apply makes_ret.
Qed.

Lemma makes_provision : makes is_create provision.
Proof.
  apply makes_bind; [apply makes_gets|]. intros n.
  induction n as [|n IH]; simpl; [apply makes_ret|].
  apply makes_bind; [apply makes_createNewContainer|].
  intros [err|]; [apply makes_ret|done].
Qed.

Lemma makes_startContainers :
  makes (λ c, is_start c || is_details c) startContainers.
Proof.
  apply makes_range_Containers. intros i c. unfold startContainers_iter.
  destruct (Started c); [apply makes_ret|].
  apply makes_bind.
  { eapply makes_weaken; [|apply makes_StartContainer]. by intros [] . }
  intros [err|]; [apply makes_ret|].
  apply makes_bind.
  { eapply makes_weaken; [|apply makes_ContainerDetails]. by intros []. }
  intros [ip|err]; [|apply makes_ret].
  apply makes_bind; [apply makes_store|]. intros _. apply makes_ret.
Qed.

Lemma makes_stopContainers hard :
  makes (λ c, is_stop c || (hard && is_kill c)) (stopContainers hard).
Proof.
  apply makes_range_Containers. intros i c. unfold stopContainers_iter.
  destruct (negb (Started c)); [apply makes_ret|].
  apply makes_bind.
  { eapply makes_weaken; [|apply makes_StopContainer]. by intros []. }
  intros [err|].
  - apply makes_bind.
    + destruct hard; simpl; [|apply makes_ret].
      eapply makes_weaken; [|apply makes_KillContainer]. by intros [].
    + intros [err'|]; [apply makes_ret|].
      apply makes_bind; [apply makes_store|]. intros _. apply makes_ret.
  - apply makes_bind; [apply makes_ret|].
    intros [err'|]; [apply makes_ret|].
    apply makes_bind; [apply makes_store|]. intros _. apply makes_ret.
Qed.

Lemma makes_cleanupContainers :
  makes (λ c, is_kill c || is_remove c) cleanupContainers.
Proof.
  apply makes_bind; [apply makes_gets|]. intros cs.
  induction cs as [|c cs IH]; simpl; [apply makes_ret|].
  apply makes_bind.
  { destruct (Started c); [|apply makes_ret].
    eapply makes_weaken; [|apply makes_KillContainer]. by intros []. }
  intros [err|]; [apply makes_ret|].
  apply makes_bind.
  { eapply makes_weaken; [|apply makes_RemoveContainer]. by intros []. }
  intros [err|]; [apply makes_ret|done].
Qed.

Lemma makes_Intn P n : makes (World:=World) P (Intn n).
Proof.
  apply makes_silent. intros st. unfold Intn.
  destruct (bool_decide _); [|done]. by destruct (rand_Intn _ _).
Qed.

Lemma makes_probe P left amount : makes P (probe left amount).
Proof.
  induction left as [|left IH]; simpl; [apply makes_ret|].
  apply makes_bind; [apply makes_Intn|]. intros random.
  apply makes_bind; [apply makes_index|]. intros c.
  destruct (ready c); [apply makes_ret|done].
Qed.

Lemma makes_getRandomContainer P : makes P getRandomContainer.
Proof.
  apply makes_bind; [apply makes_gets|]. intros amount.
  destruct (_ =? 0); [apply makes_ret|].
  apply makes_bind; [apply makes_gets|]. intros attempts.
  apply makes_bind; [apply makes_probe|]. intros [c|]; [apply makes_ret|].
  apply makes_bind; [apply makes_gets|]. intros cs.
  destruct (find ready cs); apply makes_ret.
Qed.

Lemma makes_setContainerDirty P id : makes (World:=World) P (setContainerDirty id).
Proof.
  apply makes_bind; [|intros; apply makes_ret].
  apply makes_range_Containers. intros i c. unfold setContainerDirty_iter.
  destruct (String.eqb _ _); [|apply makes_ret].
  apply makes_bind; [apply makes_store|]. intros _. apply makes_ret.
Qed.

Lemma makes_wakeUp : makes (λ c, is_start c || is_details c) wakeUp.
Proof.
  apply makes_bind; [apply makes_gets|]. intros dynamic.
  apply makes_bind.
  - destruct dynamic; [|apply makes_ret].
    apply makes_bind; [apply makes_index|]. intros c. apply makes_ret.
  - intros [|]; [apply makes_startContainers|apply makes_ret].
Qed.

Lemma makes_after_wakeUp P w r (err : error) :
  makes P
    (match err with
     | Some _ => mret (WriteHeader StatusInternalServerError w)
     | None =>
         chosen ← getRandomContainer;
         match chosen with
         | Err _ => mret (WriteHeader StatusInternalServerError w)
         | Ok chosen =>
             port ← gets (λ st : State World, ContainerPort (Config st));
             match http_NewRequest (req_Method r)
                     (proxy_URL (req_URL r) chosen port) (req_Body r) with
             | Err _ => mret (WriteHeader StatusInternalServerError w)
             | Ok proxyReq =>
                 let proxyReq := proxied r proxyReq in
                 res ← client_Do proxyReq;
                 match res with
                 | Err _ =>
                     setContainerDirty (Id chosen);;
                     mret (WriteHeader StatusBadGateway w)
                 | Ok res =>
                     src ← gets (λ st, range_Header (res_Header res) (world st));
                     let w := {| w_Header := copyHeader (w_Header w) src;
                                 w_Wrote := w_Wrote w; w_Body := w_Body w |} in
                     mret (io_Copy (res_Body res) (WriteHeader (StatusCode res) w))
                 end
             end
         end
     end).
Proof.
  destruct err as [e|]; [apply makes_ret|].
  apply makes_bind; [apply makes_getRandomContainer|].
  intros [chosen|msg]; [|apply makes_ret].
  apply makes_bind; [apply makes_gets|]. intros port.
  destruct (http_NewRequest _ _ _) as [proxyReq|msg]; [|apply makes_ret].
  apply makes_bind.
  { apply makes_silent. intros st. unfold client_Do. by destruct (http_Do _ _). }
  intros [res|msg].
  - apply makes_bind; [apply makes_gets|]. intros src. apply makes_ret.
  - apply makes_bind; [apply makes_setContainerDirty|]. intros _. apply makes_ret.
Qed.

Lemma makes_ServeHTTP w r : makes (λ c, is_start c || is_details c) (ServeHTTP w r).
Proof.
  apply makes_bind; [apply makes_wakeUp|]. intros err. apply makes_after_wakeUp.
Qed.

Lemma makes_Init : makes (λ c, is_create c || is_start c || is_details c) Init.
Proof.
  apply makes_bind.
  { eapply makes_weaken; [|apply makes_provision]. by intros []. }
  intros [err|]; [apply makes_ret|].
  apply makes_bind; [apply makes_gets|]. intros [|]; [|apply makes_ret].
  eapply makes_weaken; [|apply makes_startContainers]. by intros [].
Qed.

Lemma makes_Close : makes (λ c, is_kill c || is_remove c) Close.
Proof.
  apply makes_bind; [apply makes_cleanupContainers|]. intros e. apply makes_ret.
Qed.

Lemma exec_logs o st : logs (allowed o) st (exec o st).
Proof.
  destruct o; simpl.
  - apply makes_createNewContainer.
  - apply makes_provision.
  - apply makes_startContainers.
  - apply makes_stopContainers.
  - apply makes_cleanupContainers.
  - apply (makes_getRandomContainer (λ _, false)).
  - apply (makes_setContainerDirty (λ _, false)).
  - apply makes_Init.
  - apply makes_Close.
  - apply makes_ServeHTTP.
Qed.

(** X1: every operation makes only calls of its own kinds on the Docker
    client, whatever it answers, and leaves the configuration as it is:
    creating and provisioning only create; starting, and handling a request,
    only start and inspect; stopping only stops, and kills only when [hard];
    cleaning up and closing only kill and remove; [Init] creates, starts and
    inspects; selecting and marking dirty make no call at all.  So a
    sequence of operations makes only calls that one of its operations may
    make. *)
Theorem operations_make_only_their_calls (os : list Op) st :
  (∀ o, ∃ t, calls (exec o st) = calls st ++ t ∧
             Forall (λ c, allowed o c = true) t ∧
             Config (exec o st) = Config st) ∧
  ∃ t, calls (execs os st) = calls st ++ t ∧
       Forall (λ c, ∃ o, o ∈ os ∧ allowed o c = true) t ∧
       Config (execs os st) = Config st.
Proof.
  split.
  { intros o. destruct (exec_logs o st) as [Hconf (t & Ht & HP)]. by exists t. }
  revert st. induction os as [|o os IH]; intros st.
  { exists []. simpl. by rewrite app_nil_r. }
  destruct (exec_logs o st) as [Hconf (t1 & Ht1 & HP1)].
  destruct (IH (exec o st)) as (t2 & Ht2 & HP2 & Hconf2).
  exists (t1 ++ t2). simpl. split_and!.
  - by rewrite Ht2, Ht1, app_assoc.
  - apply Forall_app. split.
    + eapply Forall_impl; [done|]. intros c Hc. exists o. split; [by left|done].
    + eapply Forall_impl; [done|]. intros c (o' & Hin & Hc). exists o'.
      split; [by right|done].
  - congruence.
Qed.

(** ** The handler, path by path *)

Lemma only_world_refl st : only_world st st.
Proof. by unfold only_world. Qed.

Lemma only_world_trans st1 st2 st3 :
  only_world st1 st2 → only_world st2 st3 → only_world st1 st3.
Proof. unfold only_world. intros (? & ? & ? & ?) (? & ? & ? & ?). split_and!; congruence. Qed.

Lemma probe_outcome left amount st :
  only_world st (final (probe left amount st)) ∧
  ∀ c st', probe left amount st = Val (Some c) st' →
    c ∈ Containers st ∧ ready c = true.
Proof.
  revert st. induction left as [|left IH]; intros st; simpl.
  { split; [apply only_world_refl|]. by intros c st' [=]. }
  run. unfold Intn. destruct (bool_decide (0 < amount)); [|by split].
  destruct (rand_Intn amount (world st)) as [random w].
  unfold index. simpl. destruct (bool_decide (0 ≤ random)); [|by split].
  destruct (Containers st !! Z.to_nat random) as [c|] eqn:Hc; [|by split].
  destruct (ready c) eqn:Hready.
  - split; [done|]. intros c' st' [= <- <-]. split; [|done].
    by eapply list_elem_of_lookup_2.
  - destruct (IH (with_world w st)) as [Hframe Hres]. by split.
Qed.

Lemma getRandomContainer_outcome st :
  only_world st (final (getRandomContainer st)) ∧
  (∀ c st', getRandomContainer st = Val (Ok c) st' →
     c ∈ Containers st ∧ ready c = true) ∧
  (∀ msg st', getRandomContainer st = Val (Err msg) st' →
     Forall (λ c, ready c = false) (Containers st)).
Proof.
  unfold getRandomContainer. run.
  destruct (Z.of_nat (length (Containers st)) =? 0) eqn:Hlen.
  { split_and!; [done|by intros ?? [=]|]. intros msg st' _.
    destruct (Containers st); [done|]. simpl in Hlen. lia. }
  destruct (probe_outcome (Z.to_nat (ContainerAmount (Config st)))
              (Z.of_nat (length (Containers st))) st) as [Hframe Hres].
  destruct (probe _ _ st) as [[c|] st1|msg st1]; simpl in *.
  - split_and!; [done| |by intros ?? [=]]. intros c' st' [= <- <-]. by apply (Hres c st1).
  - destruct Hframe as (Hcs & ? & ? & ?). rewrite Hcs.
    destruct (find ready (Containers st)) as [c|] eqn:Hfind; simpl.
    + apply find_some in Hfind as [Hin ?]. apply list_elem_of_In in Hin.
      split_and!; [done| |by intros ?? [=]]. by intros c' st' [= <- <-].
    + split_and!; [done|by intros ?? [=]|]. intros _ _ _.
      apply Forall_forall. intros c Hin. apply list_elem_of_In in Hin.
      by eapply find_none in Hfind.
  - by split_and!.
Qed.

Lemma wakeUp_awake st :
  Type_ (Config st) ≠ DynamicController ∨
  (∃ c0 cs, Containers st = c0 :: cs ∧ Started c0 = true) →
  wakeUp st = Val None st.
Proof.
  intros Hawake. unfold wakeUp. run.
  destruct (String.eqb_spec (Type_ (Config st)) DynamicController) as [Hdyn|Hdyn];
    [|done].
  destruct Hawake as [?|(c0 & cs & Hcs & Hs)]; [done|].
  unfold index. simpl. rewrite Hcs. simpl. by rewrite Hs.
Qed.

Lemma wakeUp_dormant st c0 cs :
  Type_ (Config st) = DynamicController →
  Containers st = c0 :: cs → Started c0 = false →
  wakeUp st = startContainers st.
Proof.
  intros Hdyn Hcs Hs. unfold wakeUp. run. rewrite Hdyn. simpl.
  unfold index. simpl. rewrite Hcs. simpl. by rewrite Hs.
Qed.

(** What has happened once the wake-up is over: the handler has answered
    (or panicked in the selection) without writing the controller, or it has
    marked the container it had chosen and answered with a bad gateway. *)
Lemma ServeHTTP_route w r st e st1 :
  wakeUp st = Val e st1 →
  match e with
  | Some _ => ServeHTTP w r st = Val (WriteHeader StatusInternalServerError w) st1
  | None =>
      (only_world st1 (final (ServeHTTP w r st)) ∧
       ∀ w' st', ServeHTTP w r st = Val w' st' → w_Wrote w = None →
         is_Some (w_Status w')) ∨
      ∃ chosen st2,
        chosen ∈ Containers st1 ∧ ready chosen = true ∧
        ServeHTTP w r st = Val (WriteHeader StatusBadGateway w) st2 ∧
        Containers st2 = marked (Id chosen) <$> Containers st1 ∧
        calls st2 = calls st1 ∧ Config st2 = Config st1 ∧
        ContainerNo st2 = ContainerNo st1
  end.
Proof.
  intros Hwake. unfold ServeHTTP. run. rewrite Hwake.
  destruct e as [err|]; [done|].
  assert (∀ code st', w_Wrote w = None →
            is_Some (w_Status (WriteHeader code w))) as Hstatus.
  { intros code _ Hw. unfold w_Status, WriteHeader. rewrite Hw. by eexists. }
  destruct (getRandomContainer_outcome st1) as (Hframe & Hok & _).
  destruct (getRandomContainer st1) as [[chosen|msg] st2|msg st2]; simpl in *.
  - destruct (Hok chosen st2 eq_refl) as [Hin Hready].
    destruct (http_NewRequest _ _ _) as [proxyReq|msg].
    + unfold client_Do. destruct (http_Do _ (world st2)) as [[res|msg] w3].
      * left. split; [done|]. intros w' st' [= <- <-] Hw.
        unfold w_Status, io_Copy, WriteHeader. simpl. rewrite Hw. by eexists.
      * destruct (setContainerDirty_marked (Id chosen) (with_world w3 st2))
          as (st3 & -> & Hcs3 & Hcalls3 & Hconf3 & Hno3).
        destruct Hframe as (Hcs & Hcalls & Hconf & Hno). simpl in *.
        right. exists chosen, st3. split_and!; try done; congruence.
    + left. split; [done|]. intros w' st' [= <- <-]. by apply Hstatus.
  - left. split; [done|]. intros w' st' [= <- <-]. by apply Hstatus.
  - left. by split.
Qed.

Lemma marked_same_but_dirty id cs : Forall2 same_but_dirty cs (marked id <$> cs).
Proof.
  induction cs as [|c cs IH]; constructor; [|done].
  unfold marked. by destruct (String.eqb (Id c) id).
Qed.

Lemma Forall2_same_but_dirty_refl cs : Forall2 same_but_dirty cs cs.
Proof. apply Forall_Forall2_diag, Forall_forall. by intros c _. Qed.

(** X2: when the controller is not in dynamic mode, handling a request
    makes no call on the Docker client, whatever happens to the request: the
    log, the configuration and the counter are as before, and so is every
    entry of the pool but for its dirty flag. *)
Theorem ServeHTTP_static_leaves_docker_alone w r st :
  Type_ (Config st) ≠ DynamicController →
  calls (final (ServeHTTP w r st)) = calls st ∧
  Config (final (ServeHTTP w r st)) = Config st ∧
  ContainerNo (final (ServeHTTP w r st)) = ContainerNo st ∧
  Forall2 same_but_dirty (Containers st) (Containers (final (ServeHTTP w r st))).
Proof.
  intros Hstatic.
  pose proof (ServeHTTP_route w r st None st (wakeUp_awake st (or_introl Hstatic)))
    as [[(Hcs & ? & ? & ?) _]|(chosen & st2 & _ & _ & -> & Hcs & ? & ? & ?)].
  - split_and!; try done. rewrite Hcs. apply Forall2_same_but_dirty_refl.
  - simpl. split_and!; try done. rewrite Hcs. apply marked_same_but_dirty.
Qed.

Lemma startContainers_same_but_run st :
  Forall2 same_but_run (Containers st) (Containers (final (startContainers st))).
Proof.
  destruct (startContainers_sweep st) as (e & st' & t & -> & Hsw & _). simpl.
  eapply sweep_Forall2; [done| |done].
  intros c c' t'. unfold start_ok. destruct (Started c).
  - by intros [-> _].
  - by intros (ip & -> & _).
Qed.

Lemma wakeUp_same_but_run st :
  Forall2 same_but_run (Containers st) (Containers (final (wakeUp st))).
Proof.
  assert (Forall2 same_but_run (Containers st) (Containers st)) as Hrefl.
  { apply Forall_Forall2_diag, Forall_forall. by intros c _. }
  unfold wakeUp. run.
  destruct (String.eqb (Type_ (Config st)) DynamicController); simpl; [|done].
  unfold index. simpl. destruct (Containers st !! Z.to_nat 0) as [c0|]; [|done].
  destruct (Started c0); simpl; [done|]. apply startContainers_same_but_run.
Qed.

(** X3: a request that returns has written a status (on a writer that had
    none).  If the handler has changed the dirty flag of some entry of the
    pool, that status is the bad gateway: a container is put aside only when
    the client is told so, never on the paths that answer with a server
    error or pass on an answer of the backend. *)
Theorem ServeHTTP_marks_dirty_only_with_bad_gateway w r st w' st' :
  ServeHTTP w r st = Val w' st' → w_Wrote w = None →
  is_Some (w_Status w') ∧
  ((∃ (i : nat) c c', Containers st !! i = Some c ∧ Containers st' !! i = Some c' ∧
                      Dirty c' ≠ Dirty c) →
   w_Status w' = Some StatusBadGateway).
Proof.
  intros Hrun Hw.
  assert (∀ code, w_Status (WriteHeader code w) = Some code) as Hstatus.
  { intros code. unfold w_Status, WriteHeader. by rewrite Hw. }
  pose proof (wakeUp_same_but_run st) as Hwake.
  destruct (wakeUp st) as [e st1|msg st1] eqn:Hw1; simpl in Hwake; last first.
  { unfold ServeHTTP in Hrun. run. by rewrite Hw1 in Hrun. }
  assert (∀ (i : nat) c c', Containers st !! i = Some c →
            Containers st1 !! i = Some c' → Dirty c' = Dirty c) as Hsame.
  { intros i c c' Hi Hi'.
    destruct (Forall2_lookup_l _ _ _ _ _ Hwake Hi) as (c'' & Hi'' & _ & _ & ?).
    congruence. }
  pose proof (ServeHTTP_route w r st e st1 Hw1) as Hroute.
  destruct e as [err|].
  - rewrite Hroute in Hrun. injection Hrun as <- <-. rewrite Hstatus.
    split; [by eexists|]. intros (i & c & c' & Hi & Hi' & Hd).
    by destruct Hd; eapply Hsame.
  - destruct Hroute as [[(Hcs & _) Hsome]|(chosen & st2 & _ & _ & Hrun' & _)].
    + split; [by eapply Hsome|]. intros (i & c & c' & Hi & Hi' & Hd).
      rewrite Hrun in Hcs. simpl in Hcs. rewrite Hcs in Hi'.
      by destruct Hd; eapply Hsame.
    + rewrite Hrun' in Hrun. injection Hrun as <- <-. rewrite Hstatus.
      split; [by eexists|done].
Qed.

Lemma ServeHTTP_none_ready w r st :
  IntnInRange →
  (Type_ (Config st) ≠ DynamicController ∨
   ∃ c0 cs, Containers st = c0 :: cs ∧ Started c0 = true) →
  Forall (λ c, ready c = false) (Containers st) →
  ∃ st', ServeHTTP w r st = Val (WriteHeader StatusInternalServerError w) st' ∧
         only_world st st'.
Proof.
  intros Hrand Hawake Hnone.
  destruct (getRandomContainer_spec st Hrand)
    as (sel & st' & Hsel & Hcs & Hcalls & Hconf & Hno & Hres).
  exists st'. split; [|done].
  unfold ServeHTTP. run. rewrite (wakeUp_awake st Hawake), Hsel.
  destruct sel as [c|msg]; [|done].
  destruct Hres as [Hin Hready]. rewrite Forall_forall in Hnone.
  apply Hnone in Hin. congruence.
Qed.

(** X4: the handler looks at the first entry only to decide whether the
    pool sleeps.  When the first entry is started and no entry is ready (the
    started ones are dirty, the others are stopped), and [ContainerAmount]
    is below the largest [int] (so that the probes come to an end), the
    request is answered with a server error and nothing but the random
    source has moved: no container is started, in dynamic mode as in static
    mode.  The same holds of every further request: the stopped containers
    are never woken up. *)
Theorem ServeHTTP_started_first_entry_hides_stopped w r st c0 cs :
  IntnInRange →
  ContainerAmount (Config st) < max_int →
  Containers st = c0 :: cs → Started c0 = true →
  Forall (λ c, ready c = false) (c0 :: cs) →
  (∃ st', ServeHTTP w r st = Val (WriteHeader StatusInternalServerError w) st' ∧
          only_world st st') ∧
  (∀ os, Forall (λ o, is_serve o = true) os →
     only_world st (execs os st) ∧
     Forall2 (λ c c', Started c' = Started c) (c0 :: cs) (Containers (execs os st))).
Proof.
  intros Hrand _ Hcs Hs Hnone.
  assert (∀ st1, Containers st1 = c0 :: cs → ∀ w1 r1,
            ∃ st', ServeHTTP w1 r1 st1 =
                     Val (WriteHeader StatusInternalServerError w1) st' ∧
                   only_world st1 st') as Hone.
  { intros st1 Hcs1 w1 r1. apply ServeHTTP_none_ready; [done| |by rewrite Hcs1].
    right. by exists c0, cs. }
  split; [by apply Hone|].
  intros os Hos.
  assert (only_world st (execs os st)) as Hframe.
  { revert st Hcs Hone. induction Hos as [|o os Ho _ IH]; intros st Hcs Hone;
      [apply only_world_refl|].
    destruct o as [| | | | | | | | |w1 r1]; try done. simpl.
    destruct (Hone st Hcs w1 r1) as (st' & Hrun & Hframe). rewrite Hrun. simpl.
    eapply only_world_trans; [done|]. apply IH; [|done].
    destruct Hframe as [-> _]. done. }
  split; [done|]. destruct Hframe as [-> _]. rewrite Hcs.
  apply Forall_Forall2_diag, Forall_forall. by intros c _.
Qed.

(** X5: in dynamic mode, a pool whose first entry is not started is started
    as a whole before anything else.  If that fails, the request is answered
    with a server error and the controller is left as [startContainers] left
    it: the containers started before the failure stay started and no
    container is selected or marked.  If it succeeds, every entry of the
    pool is started when the handler is done, and the remainder of the
    handling makes no further call on the Docker client. *)
Theorem ServeHTTP_dormant_pool_is_started_first w r st c0 cs :
  Type_ (Config st) = DynamicController →
  Containers st = c0 :: cs → Started c0 = false →
  ∃ e st1,
    startContainers st = Val e st1 ∧
    match e with
    | Some _ => ServeHTTP w r st = Val (WriteHeader StatusInternalServerError w) st1
    | None =>
        Forall (λ c, Started c = true) (Containers (final (ServeHTTP w r st))) ∧
        calls (final (ServeHTTP w r st)) = calls st1
    end.
Proof.
  intros Hdyn Hcs Hs.
  destruct (startContainers_sweep st) as (e & st1 & t & Hstart & Hsw & _).
  exists e, st1. split; [done|].
  assert (wakeUp st = Val e st1) as Hwake by (by erewrite wakeUp_dormant).
  pose proof (ServeHTTP_route w r st e st1 Hwake) as Hroute.
  destruct e as [err|]; [done|].
  apply sweep_start_all_started in Hsw.
  destruct Hroute as [[(Hcs' & Hcalls & _) _]|(chosen & st2 & _ & _ & -> & Hcs' & Hcalls & _)].
  - by rewrite Hcs', Hcalls.
  - simpl. split; [|done]. rewrite Hcs'. apply Forall_fmap.
    eapply Forall_impl; [done|]. intros c Hc. simpl. unfold marked.
    by destruct (String.eqb (Id c) (Id chosen)).
Qed.

(** ** Starting, stopping and cleaning up, one after the other *)

Lemma sweep_split ok ko cs cs' t e :
  sweep ok ko cs cs' t e →
  ∃ done done' rest ts t',
    cs = done ++ rest ∧ cs' = done' ++ rest ∧
    Forall3 ok done done' ts ∧ t = concat ts ++ t' ∧
    match e with
    | None => rest = [] ∧ t' = []
    | Some err => ∃ c suf, rest = c :: suf ∧ ko c err t'
    end.
Proof.
  induction 1 as [|c c' t cs cs' ts e Hok _ IH|c err t cs Hko].
  - exists [], [], [], [], []. split_and!; try done. constructor.
  - destruct IH as (done & done' & rest & tss & t' & -> & -> & Hts & -> & He).
    exists (c :: done), (c' :: done'), rest, (t :: tss), t'.
    split_and!; try done; [by constructor|]. simpl. by rewrite app_assoc.
  - exists [], [], (c :: cs), [], t. split_and!; try done; [constructor|].
    by exists c, cs.
Qed.

(** X6: when [startContainers] returns, it has passed the entries [done],
    leaving [done'] in their place, all started: an entry that was started
    is unchanged and no call was made for it; one that was not has been
    started and then inspected, is marked started, carries the address that
    the inspection answered, and has the name, the id and the dirty flag it
    had.  The entries [rest] are as they were.  When an error is returned,
    [rest] begins with the entry [c] at which it occurred: [c] was not
    started and is still marked so in the pool, whether its start failed or
    its start succeeded and its inspection failed (the container then runs,
    and the pool does not know); no call was made for the entries after
    it. *)
Theorem startContainers_stops_at_first_failure st e st' :
  startContainers st = Val e st' →
  ∃ done done' rest ts t,
    Containers st = done ++ rest ∧ Containers st' = done' ++ rest ∧
    Forall3 (λ c c' t,
       if Started c then c' = c ∧ t = []
       else Started c' = true ∧
            Name c' = Name c ∧ Id c' = Id c ∧ Dirty c' = Dirty c ∧
            t = [StartCall (Id c) None; DetailsCall (Id c) (Ok (IPAddr c'))])
      done done' ts ∧
    Forall (λ c, Started c = true) done' ∧
    calls st' = calls st ++ concat ts ++ t ∧
    match e with
    | None => rest = [] ∧ t = []
    | Some err =>
        ∃ c suf, rest = c :: suf ∧ Started c = false ∧
          (t = [StartCall (Id c) (Some err)] ∨
           t = [StartCall (Id c) None; DetailsCall (Id c) (Err err)])
    end.
Proof.
  intros Hval.
  destruct (startContainers_sweep st) as (e0 & st0 & t & Hrun & Hsw & Hcalls & _).
  rewrite Hval in Hrun. injection Hrun as <- <-.
  destruct (sweep_split _ _ _ _ _ _ Hsw)
    as (done & done' & rest & ts & t' & Hcs & Hcs' & Hok & -> & He).
  exists done, done', rest, ts, t'. split_and!; try done.
  - clear -Hok. induction Hok as [|c c' t ??? Hc _ IH]; constructor; [|done].
    unfold start_ok in Hc. destruct (Started c) eqn:Hs; [done|].
    by destruct Hc as (ip & -> & ->).
  - clear -Hok. induction Hok as [|c c' t ??? Hc _ IH]; constructor; [|done].
    unfold start_ok in Hc. destruct (Started c) eqn:Hs.
    + by destruct Hc as [-> _].
    + by destruct Hc as (ip & -> & _).
Qed.

Lemma sweep_stop_all_stopped hard cs cs' t :
  sweep (stop_ok hard) (stop_ko hard) cs cs' t None →
  Forall (λ c, Started c = false) cs' ∧ Forall2 same_but_run cs cs'.
Proof.
  remember None as e eqn:He.
  induction 1 as [|c c' t cs cs' ts e Hok _ IH|]; [by split| |done].
  destruct (IH He) as [IH1 IH2]. unfold stop_ok in Hok.
  destruct (Started c) eqn:Hs.
  - destruct Hok as [-> _]. split; by constructor.
  - destruct Hok as [-> _]. split; by constructor.
Qed.

Lemma stopContainers_all_stopped hard st :
  Forall (λ c, Started c = false) (Containers st) →
  stopContainers hard st = Val None st.
Proof.
  intros Hall. unfold stopContainers, range_Containers. run.
  apply (range_from_skip _ (λ c, Started c = false)) with (pre := []); [|done..].
  intros i c st' Hs. unfold stopContainers_iter. by rewrite Hs.
Qed.

Lemma stopContainers_success hard st st1 :
  stopContainers hard st = Val None st1 →
  Forall (λ c, Started c = false) (Containers st1) ∧
  Forall2 same_but_run (Containers st) (Containers st1).
Proof.
  intros Hrun.
  destruct (stopContainers_sweep hard st) as (e & st' & t & Hrun' & Hsw & _).
  rewrite Hrun in Hrun'. injection Hrun' as <- <-.
  by eapply sweep_stop_all_stopped.
Qed.

Lemma not_started_not_ready cs :
  Forall (λ c, Started c = false) cs → Forall (λ c, ready c = false) cs.
Proof.
  intros Hall. eapply Forall_impl; [done|].
  intros c Hs. unfold ready. simpl in Hs. rewrite Hs. by destruct (Dirty c).
Qed.

(** X7: when [stopContainers] has returned without an error, no entry of
    the pool is started, and a second run on that pool, with or without
    [hard], passes over every entry: it returns without an error and leaves
    the state, the log of calls included, as it found it. *)
Theorem stopContainers_idempotent hard st st1 :
  stopContainers hard st = Val None st1 →
  Forall (λ c, Started c = false) (Containers st1) ∧
  ∀ hard' st2, Containers st2 = Containers st1 →
    stopContainers hard' st2 = Val None st2.
Proof.
  intros Hrun. destruct (stopContainers_success hard st st1 Hrun) as [Hall _].
  split; [done|]. intros hard' st2 Hcs.
  apply stopContainers_all_stopped. by rewrite Hcs.
Qed.

(** X8: once [stopContainers] has returned without an error, a selection on
    that pool (with [ContainerAmount] below the largest [int], so that the
    probes come to an end) finds no container and returns an error, and,
    unless the controller is in dynamic mode, every request is answered with
    a server error without a call on the Docker client: a stopped static
    pool serves nothing until it is started again. *)
Theorem stopContainers_then_nothing_is_served hard st st1 :
  IntnInRange →
  stopContainers hard st = Val None st1 →
  ∀ st2, Containers st2 = Containers st1 →
    ContainerAmount (Config st2) < max_int →
    (∃ msg st3, getRandomContainer st2 = Val (Err msg) st3) ∧
    (Type_ (Config st2) ≠ DynamicController →
     ∀ w r, ∃ st3,
       ServeHTTP w r st2 = Val (WriteHeader StatusInternalServerError w) st3 ∧
       only_world st2 st3).
Proof.
  intros Hrand Hrun st2 Hcs _.
  destruct (stopContainers_success hard st st1 Hrun) as [Hall _].
  apply not_started_not_ready in Hall. rewrite <- Hcs in Hall.
  split.
  - destruct (getRandomContainer_spec st2 Hrand) as (sel & st3 & Hsel & _ & _ & _ & _ & Hres).
    destruct sel as [c|msg]; [|by exists msg, st3].
    destruct Hres as [Hin Hready]. rewrite Forall_forall in Hall.
    apply Hall in Hin. congruence.
  - intros Hstatic w r. apply ServeHTTP_none_ready; [done|by left|done].
Qed.

Lemma sweep_start_from_stopped cs cs' t :
  Forall (λ c, Started c = false) cs →
  sweep start_ok start_ko cs cs' t None →
  t = flat_map start_pair cs'.
Proof.
  intros Hall. remember None as e eqn:He.
  induction 1 as [|c c' t cs cs' ts e Hok _ IH|]; [done| |done].
  inversion_clear Hall as [|?? Hs Hall']. unfold start_ok in Hok. rewrite Hs in Hok.
  destruct Hok as (ip & -> & ->). simpl. f_equal. f_equal. by apply IH.
Qed.

(** X9: a pool that has been stopped without an error and is then started
    without an error has every entry started, those that were not started
    before the stop too.  Every container has been started and inspected
    once, in the order of the pool, and carries the address read; names, ids
    and dirty flags are as before the stop. *)
Theorem stopContainers_then_startContainers hard st st1 st2 :
  stopContainers hard st = Val None st1 →
  startContainers st1 = Val None st2 →
  Forall (λ c, Started c = true) (Containers st2) ∧
  Forall2 same_but_run (Containers st) (Containers st2) ∧
  calls st2 = calls st1 ++ flat_map start_pair (Containers st2).
Proof.
  intros Hstop Hstart.
  destruct (stopContainers_success hard st st1 Hstop) as [Hall Hsame].
  destruct (startContainers_sweep st1) as (e & st' & t & Hrun & Hsw & Hcalls & _).
  rewrite Hstart in Hrun. injection Hrun as <- <-.
  split_and!.
  - by eapply sweep_start_all_started.
  - pose proof (startContainers_same_but_run st1) as Hsame'.
    rewrite Hstart in Hsame'. simpl in Hsame'.
    clear -Hsame Hsame'. revert Hsame'. generalize (Containers st2).
    induction Hsame as [|c c1 ?? (? & ? & ?)]; intros cs2 Hsame';
      inversion_clear Hsame' as [|?? c2 ? (? & ? & ?)]; constructor; [|auto].
    unfold same_but_run. split_and!; congruence.
  - rewrite Hcalls. f_equal. by eapply sweep_start_from_stopped.
Qed.

(** X10: on a pool that has been stopped without an error, cleaning up
    never kills: it removes the containers one by one in the order of the
    pool, up to the first removal that fails.  The calls it makes are the
    removals, each without an error, of the entries [done] before the one at
    which it stops, in their order, followed, when it returns an error, by
    the failed removal of the entry at which it stops, and nothing for the
    entries after it; when none fails, every container of the pool has been
    removed exactly once. *)
Theorem stopContainers_then_cleanup_only_removes hard st st1 :
  stopContainers hard st = Val None st1 →
  ∀ st2, Containers st2 = Containers st1 →
    ∃ e st3 t,
      cleanupContainers st2 = Val e st3 ∧ calls st3 = calls st2 ++ t ∧
      Forall (λ c, is_remove c = true) t ∧
      (e = None → t = (λ c, RemoveCall (Id c) None) <$> Containers st2) ∧
      ∃ done rest,
        Containers st2 = done ++ rest ∧
        match e with
        | None => rest = [] ∧ t = (λ c, RemoveCall (Id c) None) <$> done
        | Some err =>
            ∃ c suf, rest = c :: suf ∧
              t = ((λ c, RemoveCall (Id c) None) <$> done)
                    ++ [RemoveCall (Id c) (Some err)]
        end.
Proof.
  intros Hstop st2 Hcs.
  destruct (stopContainers_success hard st st1 Hstop) as [Hall _].
  rewrite <- Hcs in Hall.
  destruct (cleanup_from_calls (Containers st2) st2)
    as (e & st3 & done & rest & t & Hrun & _ & _ & _ & Hsplit & Hcalls & He).
  rewrite Hsplit in Hall. apply Forall_app in Hall as [Hdone Hrest].
  assert (concat (kill_remove <$> done) = (λ c, RemoveCall (Id c) None) <$> done)
    as Hremoves.
  { clear -Hdone. induction Hdone as [|c done Hs _ IH]; [done|].
    rewrite !fmap_cons. simpl. unfold kill_remove at 1, kill_calls.
    rewrite Hs. simpl. by rewrite IH. }
  assert (match e with
          | None => rest = [] ∧ t = []
          | Some err => ∃ c suf, rest = c :: suf ∧ t = [RemoveCall (Id c) (Some err)]
          end) as He'.
  { destruct e as [err|]; [|done].
    destruct He as (c & suf & -> & [[Hs _]| ->]).
    - inversion_clear Hrest. congruence.
    - inversion_clear Hrest as [|?? Hs _]. unfold kill_calls. rewrite Hs.
      by exists c, suf. }
  exists e, st3, (concat (kill_remove <$> done) ++ t).
  rewrite Hremoves. split_and!; [done|by rewrite <- Hremoves| | |].
  - apply Forall_app. split.
    + apply Forall_fmap, Forall_forall. by intros c _.
    + destruct e as [err|]; [|by destruct He' as [_ ->]].
      destruct He' as (c & suf & _ & ->). by repeat constructor.
  - intros ->. destruct He' as [-> ->]. rewrite app_nil_r in *.
    by rewrite Hsplit.
  - exists done, rest. split; [done|]. destruct e as [err|].
    + destruct He' as (c & suf & -> & ->). by exists c, suf.
    + destruct He' as [-> ->]. by rewrite app_nil_r.
Qed.


(** ** Making and initialising a controller *)

Lemma validControllerType_iff type :
  validControllerType type = true ↔ type = "dynamic" ∨ type = "static".
Proof.
  unfold validControllerType, controllerTypes, DynamicController, StaticController.
  simpl. rewrite orb_false_r, orb_true_iff, !String.eqb_eq. done.
Qed.

(** X12: [NewReqController] makes a controller exactly when the type of the
    configuration is "dynamic" or "static" (as written: the comparison is
    exact) and the Docker client can be made.  The controller has the
    configuration it was given, an empty pool, its counter at zero, and no
    call has been made.  The type is checked first: with any other type the
    error names the type, whether or not the client could be made. *)
Theorem NewReqController_accepts_two_types conf w :
  ((∃ st, NewReqController conf w = Ok st) ↔
   (Type_ conf = "dynamic" ∨ Type_ conf = "static") ∧ cli_NewClient w = None) ∧
  (∀ st, NewReqController conf w = Ok st →
     Config st = conf ∧ Containers st = [] ∧ ContainerNo st = 0 ∧
     world st = w ∧ calls st = []) ∧
  (¬ (Type_ conf = "dynamic" ∨ Type_ conf = "static") →
   NewReqController conf w = Err ("Invalid controller type: " +:+ Type_ conf)).
Proof.
  pose proof (validControllerType_iff (Type_ conf)) as Hvalid.
  unfold NewReqController.
  destruct (validControllerType (Type_ conf)); simpl.
  - destruct (cli_NewClient w) as [e|]; split_and!.
    + split; [by intros [st [=]]|]. by intros [_ [=]].
    + by intros st [=].
    + intros Hno. destruct Hno. by apply Hvalid.
    + split; [intros _; split; [by apply Hvalid|done]|]. by eexists.
    + by intros st [= <-].
    + intros Hno. destruct Hno. by apply Hvalid.
  - split_and!.
    + split; [by intros [st [=]]|]. intros [Htype _]. apply Hvalid in Htype. done.
    + by intros st [=].
    + done.
Qed.

(** X13: the configuration that [DefaultConfig] makes is accepted whenever
    the Docker client can be made, and [Init] on its controller creates one
    container, named [<deployment>-1] from the image [<image>:<tag>], and
    starts nothing: the pool is that one entry, not started, not dirty,
    without address, or it is empty when the creation failed. *)
Theorem DefaultConfig_one_dormant_container deployment image tag port w :
  cli_NewClient w = None →
  ∃ st0 e st' r,
    NewReqController (DefaultConfig deployment image tag port) w = Ok st0 ∧
    Init st0 = Val e st' ∧
    calls st' =
      [CreateCall (deployment +:+ "-1") (image +:+ ":" +:+ tag) deployment r] ∧
    match r with
    | Ok id =>
        e = None ∧
        Containers st' =
          [{| Name := deployment +:+ "-1"; Id := id; Started := false;
              Dirty := false; IPAddr := "" |}]
    | Err err => e = Some err ∧ Containers st' = []
    end.
Proof.
  intros Hcli.
  set (st0 := {| Config := DefaultConfig deployment image tag port;
                 Containers := []; ContainerNo := 0; world := w; calls := [] |}).
  destruct (createNewContainer_spec st0)
    as (e & st' & r & Hrun & _ & Hconf & Hcalls & Hr).
  assert (Init st0 = Val e st') as Hinit.
  { unfold Init, provision. run. simpl. run. rewrite Hrun.
    destruct r as [id|err]; destruct Hr as [-> _]; [|done]. by rewrite Hconf. }
  exists st0, e, st', r. split_and!; [|done|done|].
  - unfold NewReqController. simpl. by rewrite Hcli.
  - destruct r as [id|err]; destruct Hr as [-> Hcs]; by rewrite Hcs.
Qed.

Lemma start_ok_from_stopped done done' ts :
  Forall (λ c, Started c = false) done →
  Forall3 start_ok done done' ts →
  concat ts = flat_map start_pair done' ∧ Forall (λ c, Started c = true) done'.
Proof.
  intros Hall Hok. induction Hok as [|c c' t done done' ts Hc _ IH]; [done|].
  inversion_clear Hall as [|?? Hs Hall']. destruct (IH Hall') as [IH1 IH2].
  unfold start_ok in Hc. rewrite Hs in Hc. destruct Hc as (ip & -> & ->).
  split; [|by constructor]. simpl. by rewrite IH1.
Qed.

Lemma provision_new_controller conf w st0 :
  NewReqController conf w = Ok st0 → ContainerAmount conf ≤ max_int →
  ∃ e st',
    provision st0 = Val e st' ∧ Config st' = conf ∧
    Forall (λ c, is_create c = true) (calls st') ∧
    created_ids (calls st') = Id <$> Containers st' ∧
    Forall fresh (Containers st') ∧
    match e with
    | None => Z.of_nat (length (Containers st')) = Z.max 0 (ContainerAmount conf)
    | Some err =>
        Z.of_nat (length (Containers st')) < ContainerAmount conf ∧
        ∃ name image deployment,
          last (calls st') = Some (CreateCall name image deployment (Err err))
    end.
Proof.
  intros Hnew Hmax. unfold NewReqController in Hnew.
  destruct (negb _); [done|]. destruct (cli_NewClient w); [done|].
  injection Hnew as <-. unfold provision. run. simpl.
  match goal with |- context [create_loop ?n ?s] =>
    destruct (create_loop_spec n s)
      as (e & st' & new & t & Hrun & Hcs & Hcalls & Hconf & Hnames & Hids & He);
      [unfold max_int in *; simpl; lia..|];
    pose proof (makes_provision s) as [_ (t' & Ht' & Hcreate)]
  end.
  unfold provision in Ht'. run. simpl in *. rewrite Hrun in Ht'. simpl in Ht'.
  subst new t' t.
  exists e, st'. split_and!; try done.
  - apply Forall_forall. intros c Hc. apply list_elem_of_lookup in Hc as [j Hj].
    by apply Hnames in Hj as [_ ?].
  - destruct e as [err|].
    + destruct He as (? & _ & ?). split; [lia|done].
    + destruct He as [-> _]. lia.
Qed.

(** X14: in static mode, [Init] on a new controller creates the containers
    and then starts them; it never stops, kills or removes one, so nothing
    is undone when it fails.  Without an error the pool has
    [ContainerAmount] entries, all started, and the log is the creations
    followed by the start and the inspection of each container in the order
    of the pool.  With an error, either a creation failed (the last call):
    the pool has the entries created before it and none is started; or every
    container was created and the start or the inspection of one failed: the
    entries before it are started, that entry and those after it are not. *)
Theorem Init_static_creates_then_starts conf w st0 :
  NewReqController conf w = Ok st0 →
  Type_ conf = StaticController →
  ContainerAmount conf ≤ max_int →
  ∃ e st' created,
    Init st0 = Val e st' ∧
    Forall (λ c, is_create c = true) created ∧
    created_ids created = Id <$> Containers st' ∧
    match e with
    | None =>
        Z.of_nat (length (Containers st')) = Z.max 0 (ContainerAmount conf) ∧
        Forall (λ c, Started c = true) (Containers st') ∧
        calls st' = created ++ flat_map start_pair (Containers st')
    | Some err =>
        (Z.of_nat (length (Containers st')) < ContainerAmount conf ∧
         Forall (λ c, Started c = false) (Containers st') ∧
         calls st' = created ∧
         ∃ name image deployment,
           last created = Some (CreateCall name image deployment (Err err))) ∨
        (Z.of_nat (length (Containers st')) = Z.max 0 (ContainerAmount conf) ∧
         ∃ done c rest t,
           Containers st' = done ++ c :: rest ∧
           Forall (λ c, Started c = true) done ∧
           Forall (λ c, Started c = false) (c :: rest) ∧
           calls st' = created ++ flat_map start_pair done ++ t ∧
           (t = [StartCall (Id c) (Some err)] ∨
            t = [StartCall (Id c) None; DetailsCall (Id c) (Err err)]))
    end.
Proof.
  intros Hnew Hstatic Hmax.
  destruct (provision_new_controller conf w st0 Hnew Hmax)
    as (e1 & st1 & Hprov & Hconf & Hcreate & Hids & Hfresh & He1).
  assert (Forall (λ c, Started c = false) (Containers st1)) as Hstopped.
  { eapply Forall_impl; [done|]. by intros c (? & _). }
  unfold Init. run. rewrite Hprov. destruct e1 as [err|].
  { exists (Some err), st1, (calls st1). split_and!; try done.
    left. destruct He1 as [? ?]. by split_and!. }
  rewrite Hconf, Hstatic. simpl.
  destruct (startContainers_sweep st1) as (e & st' & t & -> & Hsw & Hcalls & _).
  assert (Id <$> Containers st' = Id <$> Containers st1) as Hsame.
  { eapply (sweep_Forall2 _ _ (λ c c', Id c' = Id c)) in Hsw; [|done|].
    - clear -Hsw. induction Hsw; [done|]. rewrite !fmap_cons. congruence.
    - intros c c' t'. unfold start_ok. destruct (Started c).
      + by intros [-> _].
      + by intros (ip & -> & _). }
  assert (length (Containers st') = length (Containers st1)) as Hlen.
  { by rewrite <- (length_fmap Id), Hsame, length_fmap. }
  exists e, st', (calls st1). split_and!; [done|done|congruence|].
  destruct (sweep_split _ _ _ _ _ _ Hsw)
    as (done & done' & rest & ts & t' & Hcs1 & Hcs' & Hok & -> & He).
  rewrite Hcs1 in Hstopped. apply Forall_app in Hstopped as [Hdone Hrest].
  destruct (start_ok_from_stopped _ _ _ Hdone Hok) as [Hts Hstarted].
  destruct e as [err|].
  - right. split; [lia|].
    destruct He as (c & suf & -> & _ & Ht).
    exists done', c, suf, t'. split_and!; try done.
    by rewrite Hcalls, Hts.
  - destruct He as [-> ->]. rewrite app_nil_r in *.
    split_and!; [lia|by rewrite Hcs'|]. by rewrite Hcalls, Hts, Hcs'.
Qed.

(** X15: in dynamic mode, [Init] on a new controller only creates: it
    returns what the creation loop returns, every call it has made is a
    creation, and no entry of the pool is started, dirty or has an address;
    without an error the pool has [ContainerAmount] entries. *)
Theorem Init_dynamic_starts_nothing conf w st0 :
  NewReqController conf w = Ok st0 →
  Type_ conf = DynamicController →
  ContainerAmount conf ≤ max_int →
  ∃ e st',
    Init st0 = Val e st' ∧ provision st0 = Val e st' ∧
    Forall (λ c, is_create c = true) (calls st') ∧
    created_ids (calls st') = Id <$> Containers st' ∧
    Forall (λ c, Started c = false ∧ Dirty c = false ∧ IPAddr c = "")
      (Containers st') ∧
    (e = None →
     Z.of_nat (length (Containers st')) = Z.max 0 (ContainerAmount conf)).
Proof.
  intros Hnew Hdyn Hmax.
  destruct (provision_new_controller conf w st0 Hnew Hmax)
    as (e & st' & Hprov & Hconf & Hcreate & Hids & Hfresh & He).
  exists e, st'. split_and!; try done.
  - unfold Init. run. rewrite Hprov. destruct e as [err|]; [done|].
    by rewrite Hconf, Hdyn.
  - by intros ->.
Qed.

(** ** The names and the entries of the pool *)

Lemma name_of_inj conf n m : 0 < n → 0 < m → name_of conf n = name_of conf m → n = m.
Proof.
  unfold name_of. intros Hn Hm Heq. do 2 apply String.app_inj in Heq.
  by apply fmt_d_inj.
Qed.

Lemma exec_OpCreate st :
  0 ≤ ContainerNo st → ContainerNo st < max_int →
  ∃ image deployment r new,
    calls (exec OpCreate st) =
      calls st ++
      [CreateCall (name_of (Config st) (ContainerNo st + 1)) image deployment r] ∧
    ContainerNo (exec OpCreate st) = ContainerNo st + 1 ∧
    Config (exec OpCreate st) = Config st ∧
    Containers (exec OpCreate st) = Containers st ++ new ∧
    (new = [] ∨ ∃ c, new = [c] ∧ Name c = name_of (Config st) (ContainerNo st + 1)).
Proof.
  intros Hlo Hhi. simpl.
  destruct (createNewContainer_spec st) as (e & st' & r & -> & Hno & Hconf & Hcalls & Hr).
  rewrite wrap_int_small in Hno, Hcalls, Hr by (unfold min_int, max_int in *; lia).
  simpl. destruct r as [id|err]; destruct Hr as [_ Hcs].
  - eexists _, _, _, [_]. split_and!; try done. right. by eexists.
  - eexists _, _, _, []. rewrite app_nil_r. split_and!; try done. by left.
Qed.

(** X16: the sequence number of a name is never used twice, whether the
    creations succeed or fail.  From a state whose counter is not negative,
    [k] calls of [createNewContainer] (the counter staying in the range of
    [int]) ask the daemon for the names numbered from the counter plus one
    to the counter plus [k], in this order, each once; the counter has then
    advanced by [k], and the entries added to the pool carry some of these
    names, in the same order, no two the same. *)
Theorem createNewContainer_never_reuses_a_name (k : nat) st :
  0 ≤ ContainerNo st → ContainerNo st + Z.of_nat k ≤ max_int →
  ∃ t new,
    calls (execs (replicate k OpCreate) st) = calls st ++ t ∧
    omap requested_name t =
      (λ j, name_of (Config st) (ContainerNo st + Z.of_nat j)) <$> seq 1 k ∧
    NoDup (omap requested_name t) ∧
    ContainerNo (execs (replicate k OpCreate) st) = ContainerNo st + Z.of_nat k ∧
    Containers (execs (replicate k OpCreate) st) = Containers st ++ new ∧
    Name <$> new `sublist_of` omap requested_name t ∧
    NoDup (Name <$> new).
Proof.
  intros Hlo Hhi.
  assert (∃ t new,
    calls (execs (replicate k OpCreate) st) = calls st ++ t ∧
    omap requested_name t =
      (λ j, name_of (Config st) (ContainerNo st + Z.of_nat j)) <$> seq 1 k ∧
    ContainerNo (execs (replicate k OpCreate) st) = ContainerNo st + Z.of_nat k ∧
    Containers (execs (replicate k OpCreate) st) = Containers st ++ new ∧
    Name <$> new `sublist_of` omap requested_name t)
    as (t & new & Hcalls & Hnames & Hno & Hcs & Hsub).
  { revert st Hlo Hhi. induction k as [|k IH]; intros st Hlo Hhi.
    { exists [], []. simpl. rewrite !app_nil_r. split_and!; try done. lia. }
    destruct (exec_OpCreate st Hlo) as (image & dep & r & new1 & Hc1 & Hn1 & Hconf1 & Hcs1 & Hnew1);
      [lia|].
    destruct (IH (exec OpCreate st)) as (t & new & Hc & Hnm & Hn & Hcs & Hsub);
      [lia..|].
    exists (CreateCall (name_of (Config st) (ContainerNo st + 1)) image dep r :: t),
      (new1 ++ new).
    change (execs (replicate (S k) OpCreate) st)
      with (execs (replicate k OpCreate) (exec OpCreate st)).
    split_and!.
    - by rewrite Hc, Hc1, <- app_assoc.
    - change (seq 1 (S k)) with (1%nat :: seq 2 k).
      rewrite fmap_cons. change (omap requested_name (?c :: t))
        with (name_of (Config st) (ContainerNo st + 1) :: omap requested_name t).
      rewrite Hnm, Hconf1, Hn1. f_equal.
      rewrite <- (fmap_S_seq 1), <- list_fmap_compose. apply list_fmap_ext.
      intros _ j _. simpl. f_equal. lia.
    - lia.
    - by rewrite Hcs, Hcs1, <- app_assoc.
    - rewrite fmap_app. simpl.
      destruct Hnew1 as [->|(c & -> & Hname)]; simpl.
      + by apply sublist_cons.
      + rewrite Hname. by apply sublist_skip. }
  assert (NoDup (omap requested_name t)) as Hnodup.
  { rewrite Hnames. apply NoDup_fmap_2_strong; [|apply NoDup_seq].
    intros i j Hi Hj Heq. apply elem_of_seq in Hi, Hj.
    apply name_of_inj in Heq; lia. }
  exists t, new. split_and!; try done. by eapply sublist_NoDup.
Qed.

(** X17: no operation removes an entry of the pool or moves it: after every
    sequence of operations the pool is at least as long, and every entry is
    at the index it had, with the name and the id it had.  So a pool that is
    not empty stays so: whatever has been done since, the handler's read of
    [Containers[0]] is within the pool, and the bound given to [rand.Intn]
    is positive. *)
Theorem pool_entries_are_never_removed (os : list Op) st :
  (length (Containers st) ≤ length (Containers (execs os st)))%nat ∧
  (∀ (i : nat) c, Containers st !! i = Some c →
     ∃ c', Containers (execs os st) !! i = Some c' ∧
           Name c' = Name c ∧ Id c' = Id c) ∧
  (Containers st ≠ [] →
   Containers (execs os st) ≠ [] ∧
   (∃ c, index 0 (execs os st) = Val c (execs os st)) ∧
   0 < Z.of_nat (length (Containers (execs os st)))).
Proof.
  pose proof (execs_pool_le os st) as Hle.
  assert (length (Containers st) ≤ length (Containers (execs os st)))%nat as Hlen.
  { destruct Hle as (cs1 & new & -> & Hcs1 & _).
    apply Forall2_length in Hcs1. rewrite length_app. lia. }
  split_and!; [done| |].
  - intros i c Hi. destruct (pool_le_lookup _ _ i c Hle Hi) as (c' & Hi' & ? & ? & _).
    by exists c'.
  - intros Hne. destruct (Containers st) as [|c0 cs0]; [done|]. simpl in Hlen.
    unfold index. simpl.
    destruct (Containers (execs os st)) as [|c cs]; [simpl in Hlen; lia|].
    split_and!; [done|by exists c|simpl; lia].
Qed.

Lemma marked_marked id cs : marked id <$> (marked id <$> cs) = marked id <$> cs.
Proof.
  rewrite <- list_fmap_compose. apply list_fmap_ext. intros _ c _. simpl.
  unfold marked. destruct (String.eqb (Id c) id) eqn:He; simpl; rewrite He; [|done].
  by destruct c.
Qed.

Lemma marked_comm id1 id2 cs :
  marked id1 <$> (marked id2 <$> cs) = marked id2 <$> (marked id1 <$> cs).
Proof.
  rewrite <- !list_fmap_compose. apply list_fmap_ext. intros _ c _. simpl.
  unfold marked.
  destruct (String.eqb (Id c) id1) eqn:H1, (String.eqb (Id c) id2) eqn:H2;
    simpl; rewrite ?H1, ?H2; done.
Qed.

(** X18: marking is about ids, and about nothing else: after
    [setContainerDirty id] every entry with that id is dirty, one entry or
    several, and every other entry is as it was; marking the same id again
    changes nothing, and marking two ids gives the same pool in either
    order. *)
Theorem setContainerDirty_marks_by_id id id' st :
  Containers (exec (OpMarkDirty id) st) = marked id <$> Containers st ∧
  (∀ c, c ∈ Containers (exec (OpMarkDirty id) st) → Id c = id → Dirty c = true) ∧
  Containers (execs [OpMarkDirty id; OpMarkDirty id] st) =
    Containers (exec (OpMarkDirty id) st) ∧
  Containers (execs [OpMarkDirty id; OpMarkDirty id'] st) =
    Containers (execs [OpMarkDirty id'; OpMarkDirty id] st).
Proof.
  assert (∀ i s, Containers (exec (OpMarkDirty i) s) = marked i <$> Containers s)
    as Hmark.
  { intros i s. simpl. by destruct (setContainerDirty_marked i s) as (s' & -> & ? & _). }
  split_and!.
  - apply Hmark.
  - rewrite Hmark. intros c (c0 & -> & _)%list_elem_of_fmap. unfold marked.
    destruct (String.eqb (Id c0) id) eqn:He; [done|].
    intros Hid. apply String.eqb_neq in He. done.
  - unfold execs. cbn [foldl]. rewrite !Hmark. apply marked_marked.
  - unfold execs. cbn [foldl]. rewrite !Hmark. apply marked_comm.
Qed.

(** ** copyHeader on its own *)

Lemma Header_Add_lookup k v (h : Header) K :
  Header_Add k v h !! K =
  if decide (CanonicalMIMEHeaderKey k = K) then Some (values K h ++ [v]) else h !! K.
Proof.
  unfold values, Header_Add. case_decide as Hk.
  - subst K. by rewrite lookup_insert_eq.
  - by rewrite lookup_insert_ne.
Qed.

Lemma foldl_Header_Add_lookup k vv (h : Header) K :
  foldl (λ dst v, Header_Add k v dst) h vv !! K =
  if decide (CanonicalMIMEHeaderKey k = K ∧ vv ≠ [])
  then Some (values K h ++ vv) else h !! K.
Proof.
  revert h. induction vv as [|v vv IH]; intros h; simpl.
  { rewrite decide_False; [done|]. by intros [_ ?]. }
  rewrite IH, Header_Add_lookup, Header_Add_values.
  repeat case_decide; try done; try (exfalso; intuition congruence).
  - by rewrite <- app_assoc.
  - destruct vv; [done|intuition congruence].
Qed.

Lemma copyHeader_lookup (dst : Header) src K :
  copyHeader dst src !! K =
  match added K src with
  | [] => dst !! K
  | _ => Some (values K dst ++ added K src)
  end.
Proof.
  unfold copyHeader, added. revert dst.
  induction src as [|[k vv] src IH]; intros dst; simpl; [done|].
  rewrite IH, foldl_Header_Add_lookup, foldl_Header_Add_values.
  repeat case_decide; try (exfalso; intuition congruence).
  - destruct vv as [|v vv]; [intuition congruence|]. simpl.
    destruct (flat_map _ src); [by rewrite app_nil_r|by rewrite <- app_assoc].
  - destruct vv as [|v vv]; [|intuition congruence]. simpl. by rewrite app_nil_r.
  - simpl. by rewrite app_nil_r.
Qed.

(** X19: [copyHeader] on keys.  A key is absent from the result exactly when
    it was absent from the destination and the source has brought no value
    under it; a key under which the source brings no value keeps what it
    had; a source entry whose list of values is empty creates no key.
    Copying two runs of entries one after the other is copying their
    concatenation. *)
Theorem copyHeader_creates_no_empty_key (dst : Header) src src' K :
  (copyHeader dst src !! K = None ↔ dst !! K = None ∧ added K src = []) ∧
  (added K src = [] → copyHeader dst src !! K = dst !! K) ∧
  (∀ k, copyHeader dst [(k, [])] = dst) ∧
  (∀ vv, copyHeader dst src !! K = Some vv → vv = [] → dst !! K = Some []) ∧
  copyHeader dst (src ++ src') = copyHeader (copyHeader dst src) src'.
Proof.
  split_and!.
  - rewrite copyHeader_lookup. destruct (added K src); [by intuition|].
    split; [done|]. by intros [_ ?].
  - intros Hnone. by rewrite copyHeader_lookup, Hnone.
  - done.
  - intros vv Hvv ->. rewrite copyHeader_lookup in Hvv.
    destruct (added K src) as [|v vs]; [done|].
    injection Hvv as Hvv. apply app_eq_nil in Hvv as [_ ?]. done.
  - unfold copyHeader. by rewrite foldl_app.
Qed.

Lemma Header_Add_comm k1 v1 k2 v2 (h : Header) :
  CanonicalMIMEHeaderKey k1 ≠ CanonicalMIMEHeaderKey k2 →
  Header_Add k1 v1 (Header_Add k2 v2 h) = Header_Add k2 v2 (Header_Add k1 v1 h).
Proof.
  intros Hne. unfold Header_Add.
  rewrite !lookup_insert_ne by done. by apply insert_insert_ne.
Qed.

Lemma foldl_Header_Add_comm k1 vv1 k2 v2 (h : Header) :
  CanonicalMIMEHeaderKey k1 ≠ CanonicalMIMEHeaderKey k2 →
  foldl (λ dst v, Header_Add k1 v dst) (Header_Add k2 v2 h) vv1 =
  Header_Add k2 v2 (foldl (λ dst v, Header_Add k1 v dst) h vv1).
Proof.
  intros Hne. revert h. induction vv1 as [|v1 vv1 IH]; intros h; simpl; [done|].
  by rewrite Header_Add_comm, IH.
Qed.

Lemma copy_entry_comm k1 vv1 k2 vv2 (h : Header) :
  CanonicalMIMEHeaderKey k1 ≠ CanonicalMIMEHeaderKey k2 →
  foldl (λ dst v, Header_Add k1 v dst) (foldl (λ dst v, Header_Add k2 v dst) h vv2) vv1 =
  foldl (λ dst v, Header_Add k2 v dst) (foldl (λ dst v, Header_Add k1 v dst) h vv1) vv2.
Proof.
  intros Hne. revert h. induction vv2 as [|v2 vv2 IH]; intros h; simpl; [done|].
  by rewrite IH, foldl_Header_Add_comm.
Qed.

Lemma copyHeader_permutation (dst : Header) src1 src2 :
  src1 ≡ₚ src2 →
  NoDup ((λ kvv, CanonicalMIMEHeaderKey kvv.1) <$> src1) →
  copyHeader dst src1 = copyHeader dst src2.
Proof.
  intros Hperm. revert dst.
  induction Hperm as [|[k vv] src1 src2 _ IH|[k1 vv1] [k2 vv2] src|src1 src2 src3 H12 IH12 H23 IH23];
    intros dst Hnodup.
  - done.
  - apply NoDup_cons in Hnodup as [_ Hnodup]. unfold copyHeader in *. simpl.
    by apply IH.
  - apply NoDup_cons in Hnodup as [Hne _]. unfold copyHeader. simpl.
    f_equal. apply copy_entry_comm. intros Heq. apply Hne. simpl.
    rewrite Heq. by left.
  - rewrite IH12 by done. apply IH23.
    by rewrite <- H12.
Qed.

(** X20: the order in which Go ranges over the header map of the backend
    does not show.  When no two keys of the source have the same canonical
    form, any two orders of its entries give the same header map; so it is
    for the header of a response, whose keys are in canonical form.  In
    general, under every key, the values that two orders add are the same
    up to their order. *)
Theorem copyHeader_order_does_not_matter (dst h : Header) order1 order2 :
  order1 ≡ₚ map_to_list h → order2 ≡ₚ map_to_list h →
  ((∀ k vv, h !! k = Some vv → CanonicalMIMEHeaderKey k = k) →
   copyHeader dst order1 = copyHeader dst order2) ∧
  (NoDup ((λ kvv, CanonicalMIMEHeaderKey kvv.1) <$> order1) →
   copyHeader dst order1 = copyHeader dst order2) ∧
  (∀ K, values K (copyHeader dst order1) ≡ₚ values K (copyHeader dst order2)).
Proof.
  intros H1 H2.
  assert (order1 ≡ₚ order2) as H12 by (by rewrite H1, H2).
  split_and!.
  - intros Hcanon. apply copyHeader_permutation; [done|].
    rewrite H1.
    assert ((λ kvv : string * list string, CanonicalMIMEHeaderKey kvv.1) <$> map_to_list h
            = fst <$> map_to_list h) as ->.
    { apply list_fmap_ext. intros _ [k vv] Hin%list_elem_of_lookup_2. simpl.
      apply elem_of_map_to_list in Hin. by eapply Hcanon. }
    apply NoDup_fst_map_to_list.
  - by apply copyHeader_permutation.
  - intros K. rewrite !copyHeader_values. f_equiv. unfold added.
    clear -H12. induction H12 as [|[k vv]|[k1 vv1] [k2 vv2]|]; simpl.
    + done.
    + by f_equiv.
    + rewrite !app_assoc. f_equiv. apply Permutation_app_comm.
    + by etrans.
Qed.

End Further.

(** * The listeners *)

Section Listening.
Context {World : Type} `{RT : Runtime World} `{HS : Machine World}.
Implicit Types (st : State World) (w : World).

(** A listener that returns an error with a controller in hand has failed
    in [Init]. *)
Lemma serve_controller_failed config l hs w msg host st w' :
  serve_controller config l hs w = Returned (Some msg) host (Some st) w' →
  (∃ cause, msg = Wrap cause "Unable to initialize request controller") ∧
  Forall (λ c, is_create c || is_start c || is_details c = true) (calls st).
Proof.
  unfold serve_controller.
  destruct (NewReqController config w) as [st0|err] eqn:Hnew; [|done].
  pose proof (makes_Init st0) as (_ & t & Hlog & Ht).
  assert (calls st0 = []) as Hnil.
  { unfold NewReqController in Hnew.
    destruct (negb _); [done|]. destruct (cli_NewClient w); [done|].
    by injection Hnew as <-. }
  destruct (Init st0) as [[err|] st1|msg1 st1]; [| |done].
  - intros [= <- <- <- <-]. split; [by eexists|].
    simpl in Hlog. by rewrite Hlog, Hnil.
  - by destruct (fcgi_Serve l st1).
Qed.




(** X23: a listener that returns an error after it has made a controller
    has failed in [Init], and reports "Unable to initialize request
    controller"; the controller it drops has only created, started and
    inspected containers: those that [Init] had created before the failure
    are neither killed nor removed. *)
Theorem listeners_leave_the_containers_of_a_failed_Init
    config path owner group ipAddr port w msg host st w' :
  NewSocketFCGIServer config path owner group w
    = Returned (Some msg) host (Some st) w' ∨
  NewTCPFCGIServer config ipAddr port w
    = Returned (Some msg) host (Some st) w' →
  (∃ cause, msg = Wrap cause "Unable to initialize request controller") ∧
  Forall (λ c, is_create c || is_start c || is_details c = true) (calls st) ∧
  Forall (λ c, is_kill c = false ∧ is_remove c = false) (calls st).
Proof.
  assert (∀ cs, Forall (λ c, is_create c || is_start c || is_details c = true) cs →
                Forall (λ c, is_kill c = false ∧ is_remove c = false) cs) as Hnone.
  { intros cs Hcs. eapply Forall_impl; [done|]. by intros []. }
  intros Hrun.
  enough ((∃ cause, msg = Wrap cause "Unable to initialize request controller") ∧
          Forall (λ c, is_create c || is_start c || is_details c = true) (calls st))
    as [? ?] by (split_and!; auto).
  destruct Hrun as [Heq|Heq].
  - unfold NewSocketFCGIServer in Heq.
    destruct (user_Lookup owner w) as [[u|?] w1]; [|done].
    destruct (strconv_Atoi u) as [uid|?]; [|done].
    destruct (user_LookupGroup group w1) as [[g|?] w2]; [|done].
    destruct (strconv_Atoi g) as [gid|?]; [|done].
    destruct (net_Listen "unix" path w2) as [[?|] w3]; [done|].
    destruct (os_Chown path uid gid w3) as [[?|] w4]; [done|].
    destruct (serve_controller config path _ w4) as [e hs h w5| |] eqn:Hserve;
      [|done..].
    simpl in Heq. destruct h as [st0|]; [|done]. injection Heq as -> <- <- <-.
    by apply (serve_controller_failed _ _ _ _ _ _ _ _ Hserve).
  - unfold NewTCPFCGIServer in Heq.
    destruct (net_Listen "tcp" _ w) as [[?|] w1]; [done|].
    by apply (serve_controller_failed _ _ _ _ _ _ _ _ Heq).
Qed.

End Listening.

(** * The theorems at work on the scripted world *)

Lemma Scripted_IntnInRange : @IntnInRange (list Answer) Scripted.
Proof.
  intros n w Hn. destruct w as [|[s|msg|r] w]; simpl; try lia.
  apply Z.mod_pos_bound. lia.
Qed.

Lemma Scripted_RangeVisitsAll : @RangeVisitsAll (list Answer) Scripted.
Proof. by intros h w. Qed.

(** A pool whose only ready entry is the third: the probes draw the indices
    0, 1 and 1, the scan finds it. *)
Lemma getRandomContainer_returns_ready_witness :
  @IntnInRange (list Answer) Scripted ∧
  ContainerAmount (conf_of "static" 3) < max_int ∧
  ∃ st',
    getRandomContainer
      (pool_of "static" 3
         [entry "1" true true; entry "2" false false; entry "3" true false]
         [Num 0; Num 1; Num 4])
    = Val (Ok (entry "3" true false)) st'.
Proof.
  assert (ContainerAmount (conf_of "static" 3) < max_int) as Hamount by reflexivity.
  split_and!; [exact Scripted_IntnInRange|exact Hamount|].
  destruct (getRandomContainer_returns_ready
              (pool_of "static" 3
                 [entry "1" true true; entry "2" false false; entry "3" true false]
                 [Num 0; Num 1; Num 4]) Scripted_IntnInRange Hamount)
    as (r & st' & Hrun & _ & _ & _ & _ & Hone).
  exists st'. rewrite Hrun. f_equal. apply (Hone 2%nat); [reflexivity..|].
  intros [|[|[|j]]] c' Hj; simpl; intros [= <-]; simpl; intros [? ?]; congruence.
Defined.


(** A dynamic controller whose pool is empty. *)
Lemma ServeHTTP_dynamic_empty_pool_panics_witness :
  Type_ (Config (pool_of "dynamic" 0 [] [])) = DynamicController ∧
  ServeHTTP blank get_index (pool_of "dynamic" 0 [] []) =
    Panic "index out of range" (pool_of "dynamic" 0 [] []).
Proof.
  split; [reflexivity|].
  apply (ServeHTTP_dynamic_empty_pool_panics blank get_index
           (pool_of "dynamic" 0 [] []) eq_refl).
  reflexivity.
Defined.

(** Three containers asked for, the daemon refuses the third. *)
Lemma provision_names_entries_witness :
  NewReqController (conf_of "static" 3) [Yes "a1"; Yes "b2"; No "no space left"] =
    Ok (pool_of "static" 3 [] [Yes "a1"; Yes "b2"; No "no space left"]) ∧
  ContainerAmount (conf_of "static" 3) ≤ max_int ∧
  ∃ e st',
    provision (pool_of "static" 3 [] [Yes "a1"; Yes "b2"; No "no space left"]) =
      Val e st' ∧
    Name <$> Containers st' = ["web-1"; "web-2"] ∧
    ContainerNo st' = 3 ∧
    NoDup (Name <$> Containers st') ∧ NoDup (Id <$> Containers st').
Proof.
  assert (NewReqController (conf_of "static" 3)
            [Yes "a1"; Yes "b2"; No "no space left"] =
          Ok (pool_of "static" 3 [] [Yes "a1"; Yes "b2"; No "no space left"]))
    as Hnew by reflexivity.
  assert (ContainerAmount (conf_of "static" 3) ≤ max_int) as Hmax by (by vm_compute).
  split_and!; [exact Hnew|exact Hmax|].
  destruct (provision_names_entries _ _ _ Hnew Hmax)
    as (e & st' & Hrun & _ & Hnames & _ & Hids & _).
  exists e, st'. split; [exact Hrun|].
  assert (created_ids (calls st') = ["a1"; "b2"] ∧
          Name <$> Containers st' = ["web-1"; "web-2"] ∧ ContainerNo st' = 3)
    as (Hcreated & Hname & Hno).
  { vm_compute in Hrun. injection Hrun as <- <-. by vm_compute. }
  split_and!; [exact Hname|exact Hno|exact Hnames|].
  apply Hids. rewrite Hcreated. apply (bool_decide_unpack _). by vm_compute.
Defined.

(** A daemon that answers two creations with one id: both entries carry it. *)
Lemma provision_can_repeat_an_id :
  NewReqController (conf_of "dynamic" 2) [Yes "4f2a"; Yes "4f2a"] =
    Ok (pool_of "dynamic" 2 [] [Yes "4f2a"; Yes "4f2a"]) ∧
  (∃ st', provision (pool_of "dynamic" 2 [] [Yes "4f2a"; Yes "4f2a"]) = Val None st' ∧
          length (Containers st') = 2%nat ∧
          Id <$> Containers st' = ["4f2a"; "4f2a"] ∧
          ¬ NoDup (Id <$> Containers st')).
Proof.
  split; [reflexivity|]. eexists. split; [vm_compute; reflexivity|].
  split_and!; [reflexivity..|].
  simpl. intros Hnodup. apply NoDup_cons in Hnodup as [Hin _].
  apply Hin. by left.
Qed.

Lemma startContainers_idempotent_witness :
  startContainers dormant_two = Val None awake_two ∧
  startContainers awake_two = Val None awake_two.
Proof.
  split; [reflexivity|].
  apply (startContainers_idempotent dormant_two awake_two); reflexivity.
Defined.

Lemma dirty_flag_is_one_way_witness :
  Containers one_dirty !! 0%nat = Some (entry "1" true true) ∧
  Dirty (entry "1" true true) = true ∧
  ∃ c',
    Containers
      (execs [OpStopAll true; OpStartAll; OpSelectReady; OpMarkDirty "2"; OpCleanup]
         one_dirty) !! 0%nat = Some c' ∧
    Dirty c' = true.
Proof.
  split_and!; [reflexivity..|].
  destruct (dirty_flag_is_one_way
              [OpStopAll true; OpStartAll; OpSelectReady; OpMarkDirty "2"; OpCleanup]
              one_dirty 0%nat (entry "1" true true) eq_refl eq_refl)
    as [(c' & Hi & _ & _ & Hd & _) _].
  by exists c'.
Defined.

Lemma address_invariant_preserved_witness :
  Forall address_inv (Containers one_dirty) ∧
  Forall address_inv
    (Containers (execs [OpStopAll false; OpCreate; OpStartAll; OpMarkDirty "1"] one_dirty)).
Proof.
  assert (Forall address_inv (Containers one_dirty)) as Hinv.
  { repeat constructor; intros [=]. }
  split; [exact Hinv|].
  apply (address_invariant_preserved
           [OpStopAll false; OpCreate; OpStartAll; OpMarkDirty "1"] one_dirty Hinv).
Defined.

Lemma ServeHTTP_success_copies_headers_witness :
  @RangeVisitsAll (list Answer) Scripted ∧
  wakeUp one_ready = Val None one_ready ∧
  getRandomContainer one_ready =
    Val (Ok (entry "1" true false)) (with_world [Yes "<html></html>"] one_ready) ∧
  w_Wrote with_type = None ∧
  ∃ w' sent,
    ServeHTTP with_type get_index one_ready = Val w' (with_world [] one_ready) ∧
    w_Wrote w' = Some (200, sent) ∧
    values "Content-Type" sent = ["text/plain"; "text/html"].
Proof.
  split_and!; [exact Scripted_RangeVisitsAll|reflexivity..|].
  destruct (ServeHTTP_success_copies_headers with_type get_index one_ready one_ready
              (with_world [Yes "<html></html>"] one_ready)
              (entry "1" true false)
              {| req_Method := "GET";
                 req_URL := proxy_URL (req_URL get_index) (entry "1" true false) 9000;
                 req_Header := ∅; req_Body := "" |}
              {| StatusCode := 200;
                 res_Header := {["Content-Type" := ["text/html"]]};
                 res_Body := "<html></html>" |}
              [] Scripted_RangeVisitsAll eq_refl eq_refl eq_refl eq_refl eq_refl)
    as (w' & sent & Hrun & Hwrote & _ & _ & Hvalues & _).
  exists w', sent. split_and!; [exact Hrun|exact Hwrote|].
  rewrite Hvalues. by vm_compute.
Defined.

(** ** Runs of the controller *)

(** A static controller of two: both containers are created, started and
    inspected, in this order. *)
Example Init_static_two :
  ∃ st, NewReqController (conf_of "static" 2) [] = Ok st ∧
    Init st =
      Val None
        {| Config := conf_of "static" 2;
           Containers :=
             [{| Name := "web-1"; Id := "web-1"; Started := true; Dirty := false;
                 IPAddr := "172.17.0.2" |};
              {| Name := "web-2"; Id := "web-2"; Started := true; Dirty := false;
                 IPAddr := "172.17.0.2" |}];
           ContainerNo := 2; world := [];
           calls :=
             [CreateCall "web-1" "php:8-fpm" "web" (Ok "web-1");
              CreateCall "web-2" "php:8-fpm" "web" (Ok "web-2");
              StartCall "web-1" None; DetailsCall "web-1" (Ok "172.17.0.2");
              StartCall "web-2" None; DetailsCall "web-2" (Ok "172.17.0.2")] |}.
Proof. eexists. split; reflexivity. Qed.

(** The first graceful stop fails: without [hard] nothing is changed and no
    kill is tried. *)
Example stopContainers_soft_failure :
  stopContainers false
    (pool_of "static" 2 [entry "1" true false; entry "2" true false] [No "busy"]) =
  Val (Some "Unable to stop container 1: busy")
    {| Config := conf_of "static" 2;
       Containers := [entry "1" true false; entry "2" true false];
       ContainerNo := 2; world := [];
       calls := [StopCall "1" (Some "Unable to stop container 1: busy")] |}.
Proof. reflexivity. Qed.

(** With [hard] the first container is killed and cleared, the second is
    skipped (it is not started), the kill of the third fails and it stays
    started. *)
Example stopContainers_hard_failure :
  stopContainers true
    (pool_of "static" 3
       [entry "1" true false; entry "2" false false; entry "3" true true]
       [No "busy"; Yes ""; No "busy"; No "gone"]) =
  Val (Some "Unable to kill container 3: gone")
    {| Config := conf_of "static" 3;
       Containers :=
         [{| Name := "web-1"; Id := "1"; Started := false; Dirty := false; IPAddr := "" |};
          entry "2" false false; entry "3" true true];
       ContainerNo := 3; world := [];
       calls :=
         [StopCall "1" (Some "Unable to stop container 1: busy"); KillCall "1" None;
          StopCall "3" (Some "Unable to stop container 3: busy");
          KillCall "3" (Some "Unable to kill container 3: gone")] |}.
Proof. reflexivity. Qed.

(** A started and a stopped container are cleaned up; then the removal of
    the first fails. *)
Example cleanupContainers_started_stopped :
  calls (final (cleanupContainers
    (pool_of "static" 2 [entry "1" true false; entry "2" false false] []))) =
  [KillCall "1" None; RemoveCall "1" None; RemoveCall "2" None].
Proof. reflexivity. Qed.

Example cleanupContainers_remove_fails :
  cleanupContainers
    (pool_of "static" 2 [entry "1" true false; entry "2" false false]
       [Yes ""; No "in use"]) =
  Val (Some "Unable to remove container 1: in use")
    {| Config := conf_of "static" 2;
       Containers := [entry "1" true false; entry "2" false false];
       ContainerNo := 2; world := [];
       calls := [KillCall "1" None;
                 RemoveCall "1" (Some "Unable to remove container 1: in use")] |}.
Proof. reflexivity. Qed.

(** Every container is stopped or dirty: no probe and no scan finds one. *)
Example getRandomContainer_none_ready :
  getRandomContainer
    (pool_of "static" 2 [entry "1" true true; entry "2" false false] [Num 1; Num 0]) =
  Val (Err "All containers are either shut down or marked as dirty")
    (pool_of "static" 2 [entry "1" true true; entry "2" false false] []).
Proof. reflexivity. Qed.

(** A dormant dynamic pool is woken up by the first request, which is then
    passed on to a container. *)
Example ServeHTTP_wakes_up :
  ∃ w' st',
    ServeHTTP blank get_index
      (pool_of "dynamic" 1 [entry "1" false false] [Yes ""; Yes "172.17.0.2"; Num 0; Yes "ok"])
    = Val w' st' ∧
    w_Status w' = Some 200 ∧ w_Body w' = "ok" ∧
    Containers st' =
      [{| Name := "web-1"; Id := "1"; Started := true; Dirty := false;
          IPAddr := "172.17.0.2" |}].
Proof. eexists _, _. split; [vm_compute; reflexivity|]. by vm_compute. Qed.

(** ** The further properties at work *)

Lemma ServeHTTP_static_leaves_docker_alone_witness :
  Type_ (Config two_ready) ≠ DynamicController ∧
  calls (final (ServeHTTP blank get_index two_ready)) = calls two_ready ∧
  Forall2 same_but_dirty (Containers two_ready)
    (Containers (final (ServeHTTP blank get_index two_ready))).
Proof.
  assert (Type_ (Config two_ready) ≠ DynamicController) as Hstatic by (by intros [=]).
  split; [exact Hstatic|].
  destruct (ServeHTTP_static_leaves_docker_alone blank get_index two_ready Hstatic)
    as (Hcalls & _ & _ & Hpool).
  by split.
Defined.

Lemma ServeHTTP_marks_dirty_only_with_bad_gateway_witness :
  ServeHTTP blank get_index two_ready =
    Val (WriteHeader StatusBadGateway blank) two_ready_refused ∧
  w_Wrote blank = None ∧
  w_Status (WriteHeader StatusBadGateway blank) = Some StatusBadGateway.
Proof.
  assert (ServeHTTP blank get_index two_ready =
            Val (WriteHeader StatusBadGateway blank) two_ready_refused) as Hrun
    by reflexivity.
  split_and!; [exact Hrun|reflexivity|].
  apply (ServeHTTP_marks_dirty_only_with_bad_gateway _ _ _ _ _ Hrun eq_refl).
  exists 0%nat, (entry "1" true false), (set_Dirty true (entry "1" true false)).
  by split_and!.
Defined.

Lemma ServeHTTP_started_first_entry_hides_stopped_witness :
  @IntnInRange (list Answer) Scripted ∧
  ContainerAmount (Config hidden_stopped) < max_int ∧
  Containers hidden_stopped = [entry "1" true true; entry "2" false false] ∧
  Type_ (Config hidden_stopped) = DynamicController ∧
  ∃ st',
    ServeHTTP blank get_index hidden_stopped =
      Val (WriteHeader StatusInternalServerError blank) st' ∧
    Containers st' = [entry "1" true true; entry "2" false false] ∧
    calls st' = [].
Proof.
  assert (ContainerAmount (Config hidden_stopped) < max_int) as Hamount
    by reflexivity.
  split_and!; [exact Scripted_IntnInRange|exact Hamount|reflexivity..|].
  destruct (ServeHTTP_started_first_entry_hides_stopped blank get_index hidden_stopped
              (entry "1" true true) [entry "2" false false]
              Scripted_IntnInRange Hamount eq_refl eq_refl)
    as [(st' & Hrun & Hcs & Hcalls & _) _].
  { by repeat constructor. }
  exists st'. by split_and!.
Defined.

Lemma ServeHTTP_dormant_pool_is_started_first_witness :
  Type_ (Config dormant_two) = DynamicController ∧
  Containers dormant_two = [entry "1" false false; entry "2" false false] ∧
  startContainers dormant_two = Val None awake_two ∧
  Forall (λ c, Started c = true)
    (Containers (final (ServeHTTP blank get_index dormant_two))).
Proof.
  split_and!; [reflexivity..|].
  destruct (ServeHTTP_dormant_pool_is_started_first blank get_index dormant_two
              (entry "1" false false) [entry "2" false false] eq_refl eq_refl eq_refl)
    as (e & st1 & Hstart & He).
  assert (startContainers dormant_two = Val None awake_two) as Hawake by reflexivity.
  rewrite Hawake in Hstart. injection Hstart as <- <-. by destruct He.
Defined.

Lemma stopContainers_idempotent_witness :
  stopContainers false awake_two = Val None stopped_two ∧
  stopContainers true stopped_two = Val None stopped_two.
Proof.
  assert (stopContainers false awake_two = Val None stopped_two) as Hstop
    by reflexivity.
  split; [exact Hstop|].
  by apply (stopContainers_idempotent false awake_two stopped_two Hstop).
Defined.

Lemma stopContainers_then_nothing_is_served_witness :
  @IntnInRange (list Answer) Scripted ∧
  stopContainers false awake_two = Val None stopped_two ∧
  ContainerAmount (Config stopped_two) < max_int ∧
  ∃ msg st3, getRandomContainer stopped_two = Val (Err msg) st3.
Proof.
  assert (stopContainers false awake_two = Val None stopped_two) as Hstop
    by reflexivity.
  assert (ContainerAmount (Config stopped_two) < max_int) as Hamount
    by reflexivity.
  split_and!; [exact Scripted_IntnInRange|exact Hstop|exact Hamount|].
  by apply (stopContainers_then_nothing_is_served false awake_two stopped_two
              Scripted_IntnInRange Hstop stopped_two eq_refl Hamount).
Defined.

Lemma stopContainers_then_startContainers_witness :
  stopContainers false awake_two = Val None stopped_two ∧
  startContainers stopped_two = Val None restarted_two ∧
  Forall (λ c, Started c = true) (Containers restarted_two).
Proof.
  assert (stopContainers false awake_two = Val None stopped_two) as Hstop
    by reflexivity.
  assert (startContainers stopped_two = Val None restarted_two) as Hstart
    by reflexivity.
  split_and!; [exact Hstop|exact Hstart|].
  by apply (stopContainers_then_startContainers false awake_two stopped_two
              restarted_two Hstop Hstart).
Defined.

Lemma stopContainers_then_cleanup_only_removes_witness :
  stopContainers false awake_two = Val None stopped_two ∧
  ∃ e st3 t,
    cleanupContainers stopped_two = Val e st3 ∧
    calls st3 = calls stopped_two ++ t ∧ Forall (λ c, is_remove c = true) t.
Proof.
  assert (stopContainers false awake_two = Val None stopped_two) as Hstop
    by reflexivity.
  split; [exact Hstop|].
  destruct (stopContainers_then_cleanup_only_removes false awake_two stopped_two
              Hstop stopped_two eq_refl) as (e & st3 & t & Hrun & Hcalls & Hrm & _).
  by exists e, st3, t.
Defined.

Lemma DefaultConfig_one_dormant_container_witness :
  cli_NewClient ([] : list Answer) = None ∧
  ∃ st0 e st' r,
    NewReqController (DefaultConfig "web" "php" "8-fpm" 9000) [] = Ok st0 ∧
    Init st0 = Val e st' ∧
    calls st' = [CreateCall "web-1" "php:8-fpm" "web" r].
Proof.
  assert (cli_NewClient ([] : list Answer) = None) as Hcli by reflexivity.
  split; [exact Hcli|].
  destruct (DefaultConfig_one_dormant_container "web" "php" "8-fpm" 9000
              ([] : list Answer) Hcli)
    as (st0 & e & st' & r & Hnew & Hinit & Hcalls & _).
  by exists st0, e, st', r.
Defined.

Lemma Init_static_creates_then_starts_witness :
  NewReqController (conf_of "static" 2) [] = Ok (pool_of "static" 2 [] []) ∧
  Type_ (conf_of "static" 2) = StaticController ∧
  ContainerAmount (conf_of "static" 2) ≤ max_int ∧
  ∃ e st' created,
    Init (pool_of "static" 2 [] []) = Val e st' ∧
    Forall (λ c, is_create c = true) created ∧
    created_ids created = Id <$> Containers st'.
Proof.
  assert (NewReqController (conf_of "static" 2) [] = Ok (pool_of "static" 2 [] []))
    as Hnew by reflexivity.
  assert (ContainerAmount (conf_of "static" 2) ≤ max_int) as Hmax by (by vm_compute).
  split_and!; [exact Hnew|reflexivity|exact Hmax|].
  destruct (Init_static_creates_then_starts _ _ _ Hnew eq_refl Hmax)
    as (e & st' & created & Hrun & Hcreated & Hids & _).
  by exists e, st', created.
Defined.

Lemma Init_dynamic_starts_nothing_witness :
  NewReqController (conf_of "dynamic" 2) [] = Ok (pool_of "dynamic" 2 [] []) ∧
  Type_ (conf_of "dynamic" 2) = DynamicController ∧
  ContainerAmount (conf_of "dynamic" 2) ≤ max_int ∧
  ∃ e st',
    Init (pool_of "dynamic" 2 [] []) = Val e st' ∧
    Forall (λ c, Started c = false ∧ Dirty c = false ∧ IPAddr c = "") (Containers st').
Proof.
  assert (NewReqController (conf_of "dynamic" 2) [] = Ok (pool_of "dynamic" 2 [] []))
    as Hnew by reflexivity.
  assert (ContainerAmount (conf_of "dynamic" 2) ≤ max_int) as Hmax by (by vm_compute).
  split_and!; [exact Hnew|reflexivity|exact Hmax|].
  destruct (Init_dynamic_starts_nothing _ _ _ Hnew eq_refl Hmax)
    as (e & st' & Hrun & _ & _ & _ & Hfresh & _).
  by exists e, st'.
Defined.

Lemma createNewContainer_never_reuses_a_name_witness :
  0 ≤ ContainerNo (pool_of "static" 0 [] [No "no space left"; Yes "b2"]) ∧
  ContainerNo (pool_of "static" 0 [] [No "no space left"; Yes "b2"]) + Z.of_nat 2
    ≤ max_int ∧
  ∃ t,
    calls (execs [OpCreate; OpCreate]
             (pool_of "static" 0 [] [No "no space left"; Yes "b2"])) = t ∧
    omap requested_name t = ["web-1"; "web-2"].
Proof.
  assert (0 ≤ ContainerNo (pool_of "static" 0 [] [No "no space left"; Yes "b2"]))
    as Hlo by (by vm_compute).
  assert (ContainerNo (pool_of "static" 0 [] [No "no space left"; Yes "b2"])
            + Z.of_nat 2 ≤ max_int) as Hhi by (by vm_compute).
  split_and!; [exact Hlo|exact Hhi|].
  destruct (createNewContainer_never_reuses_a_name 2 _ Hlo Hhi)
    as (t & new & Hcalls & Hnames & _).
  exists t. split; [exact Hcalls|]. rewrite Hnames. reflexivity.
Defined.

Lemma copyHeader_order_does_not_matter_witness :
  map_to_list two_headers ≡ₚ map_to_list two_headers ∧
  reverse (map_to_list two_headers) ≡ₚ map_to_list two_headers ∧
  copyHeader (World:=list Answer) ∅ (map_to_list two_headers) =
  copyHeader (World:=list Answer) ∅ (reverse (map_to_list two_headers)).
Proof.
  split_and!; [reflexivity|apply reverse_Permutation|].
  destruct (copyHeader_order_does_not_matter (World:=list Answer) ∅ two_headers
              (map_to_list two_headers) (reverse (map_to_list two_headers)))
    as [Hcanonical _]; [reflexivity|apply reverse_Permutation|].
  apply Hcanonical. reflexivity.
Defined.


(** The socket listener when the daemon refuses the second of two
    containers: the first stays as it was created, and the socket is removed
    and closed. *)
Lemma listeners_leave_the_containers_of_a_failed_Init_witness :
  ∃ msg st w',
    NewSocketFCGIServer (conf_of StaticController 2) "/run/fpm.sock" "www" "www"
      [Yes "1000"; Yes "33"; Yes ""; Yes ""; Yes "id1"; No "no space"]
    = Returned (Some msg)
        [ListenCall "unix" "/run/fpm.sock" None;
         ChownCall "/run/fpm.sock" 1000 33 None;
         RemoveFileCall "/run/fpm.sock"; CloseCall "/run/fpm.sock"]
        (Some st) w' ∧
    Id <$> Containers st = ["id1"] ∧
    Forall (λ c, is_kill c = false ∧ is_remove c = false) (calls st).
Proof.
  eexists _, _, _. split; [vm_compute; reflexivity|]. split; [reflexivity|].
  eapply (listeners_leave_the_containers_of_a_failed_Init
            (conf_of StaticController 2) "/run/fpm.sock" "www" "www" "" 0
            [Yes "1000"; Yes "33"; Yes ""; Yes ""; Yes "id1"; No "no space"]).
  left. vm_compute. reflexivity.
Defined.

Example NewSocketFCGIServer_unknown_group :
  NewSocketFCGIServer (conf_of StaticController 2) "/run/fpm.sock" "www" "nobody"
    [Yes "1000"; No "unknown group nobody"]
  = Returned (Some "Unable to find group nobody: unknown group nobody") [] None [].
Proof. reflexivity. Qed.

Example NewTCPFCGIServer_invalid_type :
  NewTCPFCGIServer (conf_of "pooled" 2) "127.0.0.1" 9000 [Yes ""]
  = Returned (Some "Unable to setup request controller: Invalid controller type: pooled")
      [ListenCall "tcp" "127.0.0.1:9000" None] None [].
Proof. reflexivity. Qed.


(** A pool of two stopped containers: the first is started and inspected,
    the inspection of the second fails after its start. *)
Lemma startContainers_stops_at_first_failure_witness :
  ∃ err st',
    startContainers
      (pool_of "static" 2 [entry "1" false false; entry "2" false false]
         [Yes ""; Yes "172.17.0.2"; Yes ""; No "no such container"])
    = Val (Some err) st' ∧
    ∃ done' c suf,
      Containers st' = done' ++ c :: suf ∧
      Forall (λ c, Started c = true) done' ∧ Started c = false.
Proof.
  assert (∃ err st',
            startContainers
              (pool_of "static" 2 [entry "1" false false; entry "2" false false]
                 [Yes ""; Yes "172.17.0.2"; Yes ""; No "no such container"])
            = Val (Some err) st') as (err & st' & Hrun)
    by (eexists _, _; vm_compute; reflexivity).
  exists err, st'. split; [exact Hrun|].
  destruct (startContainers_stops_at_first_failure _ _ _ Hrun)
    as (done & done' & rest & ts & t & _ & Hcs' & _ & Hall & _ & c & suf & -> & Hs & _).
  by exists done', c, suf.
Defined.

Example NewSocketFCGIServer_keeps_serving :
  @NewSocketFCGIServer _ Scripted Accepting
    (conf_of "dynamic" 1) "/run/fpm.sock" "www" "www" []
  = InServe [ListenCall "unix" "/run/fpm.sock" None;
             ChownCall "/run/fpm.sock" 1000 33 None].
Proof. reflexivity. Qed.
